(** * PayloadEncryption: the hybrid AES-CTR / RSA-OAEP request and response codec

    A shallow embedding of [src/services/payloadEncryption.ts].

    - JavaScript strings are sequences of UTF-16 code units ([jsstring]).
    - A Node [Buffer] is a [list byte].
    - The class instance, the clock, the entropy source, the console and the
      object heap are fields of one explicit [World]; methods are computations
      in a state-and-exception monad [M]: a thrown exception keeps the world
      as it was at the throw (JavaScript does not roll anything back).
    - The primitives of Node that the file calls but does not define (the AES
      block function, PEM reading, RSA-OAEP, inflate, the UTF-8 decoder and
      [JSON.parse]) are the fields of the class [Platform]. *)

From Stdlib Require Import ZArith NArith Lia List Ascii String.
From Stdlib Require Import Strings.Byte.
From stdpp Require Import gmap.

Local Open Scope N_scope.

(** Linear goals over quotients and remainders by constants. *)
Ltac euclid := zify; Z.to_euclidean_division_equations; lia.

(** ** Bytes *)

Module Bytes.

Definition b2n (b : byte) : N := Byte.to_N b.

(** The low eight bits of a number, as a byte. *)
Definition n2b (n : N) : byte :=
  match Byte.of_N (n mod 256) with
  | Some b => b
  | None => x00
  end.

Definition bxor (a b : byte) : byte := n2b (N.lxor (b2n a) (b2n b)).

Lemma b2n_lt b : b2n b < 256.
Proof. unfold b2n. pose proof (Byte.to_N_bounded b). lia. Qed.

Lemma n2b_b2n b : n2b (b2n b) = b.
Proof.
  unfold n2b. rewrite N.mod_small by apply b2n_lt.
  unfold b2n. now rewrite Byte.of_to_N.
Qed.

Lemma b2n_n2b n : b2n (n2b n) = n mod 256.
Proof.
  unfold n2b, b2n.
  destruct (Byte.of_N (n mod 256)) as [b|] eqn:E.
  - now apply Byte.to_of_N.
  - apply Byte.of_N_None_iff in E.
    pose proof (N.mod_upper_bound n 256). lia.
Qed.

Lemma b2n_n2b_small n : n < 256 -> b2n (n2b n) = n.
Proof. intros H. rewrite b2n_n2b. now apply N.mod_small. Qed.

Lemma b2n_inj a b : b2n a = b2n b -> a = b.
Proof. intros H. rewrite <- (n2b_b2n a), <- (n2b_b2n b). now rewrite H. Qed.

Lemma lxor_lt_256 x y : x < 256 -> y < 256 -> N.lxor x y < 256.
Proof.
  intros Hx Hy.
  destruct (N.eq_dec (N.lxor x y) 0) as [E|E]; [rewrite E; lia|].
  change 256 with (2 ^ 8). apply N.log2_lt_pow2; [lia|].
  eapply N.le_lt_trans; [apply N.log2_lxor|].
  apply N.max_lub_lt.
  - destruct (N.eq_dec x 0) as [->|]; [reflexivity|].
    apply N.log2_lt_pow2; [lia|exact Hx].
  - destruct (N.eq_dec y 0) as [->|]; [reflexivity|].
    apply N.log2_lt_pow2; [lia|exact Hy].
Qed.

Lemma b2n_bxor a b : b2n (bxor a b) = N.lxor (b2n a) (b2n b).
Proof.
  unfold bxor. apply b2n_n2b_small.
  apply lxor_lt_256; apply b2n_lt.
Qed.

(** XOR with the same byte twice is the identity: what makes counter mode
    its own inverse. *)
Lemma bxor_involutive a k : bxor (bxor a k) k = a.
Proof.
  apply b2n_inj. rewrite !b2n_bxor.
  now rewrite N.lxor_assoc, N.lxor_nilpotent, N.lxor_0_r.
Qed.

End Bytes.
Import Bytes.

(** ** JavaScript strings *)

Module JSString.

(** A string is its sequence of UTF-16 code units. *)
Definition jsstring := list N.

(** A source literal (ASCII) as a JavaScript string. *)
Definition js (s : string) : jsstring :=
  map N_of_ascii (list_ascii_of_string s).

(** [fillString] repeated and cut to [n] code units. *)
Definition fill_to (n : nat) (fillString : jsstring) : jsstring :=
  take n (mjoin (replicate n fillString)).

(** [String.prototype.padEnd(maxLength, fillString)]. *)
Definition padEnd (s : jsstring) (maxLength : nat) (fillString : jsstring)
  : jsstring :=
  if (maxLength <=? length s)%nat then s
  else match fillString with
       | [] => s
       | _ => s ++ fill_to (maxLength - length s) fillString
       end.

(** [String.prototype.slice(start, end)] for non-negative indices. *)
Definition slice (s : jsstring) (start stop : nat) : jsstring :=
  take (stop - start) (drop start s).

Definition is_high_surrogate (c : N) : bool := (0xD800 <=? c) && (c <=? 0xDBFF).
Definition is_low_surrogate (c : N) : bool := (0xDC00 <=? c) && (c <=? 0xDFFF).

(** U+FFFD, what an unpaired surrogate is encoded as. *)
Definition utf8_replacement : list byte := [xef; xbf; xbd].

Definition utf8_2 (c : N) : list byte :=
  [n2b (0xC0 + c / 64); n2b (0x80 + c mod 64)].

Definition utf8_3 (c : N) : list byte :=
  [n2b (0xE0 + c / 4096); n2b (0x80 + (c / 64) mod 64); n2b (0x80 + c mod 64)].

Definition utf8_4 (cp : N) : list byte :=
  [n2b (0xF0 + cp / 262144); n2b (0x80 + (cp / 4096) mod 64);
   n2b (0x80 + (cp / 64) mod 64); n2b (0x80 + cp mod 64)].

Definition code_point (hi lo : N) : N :=
  0x10000 + (hi - 0xD800) * 0x400 + (lo - 0xDC00).

(** [Buffer.from(s, "utf8")]. *)
Fixpoint utf8_encode (s : jsstring) : list byte :=
  match s with
  | [] => []
  | c :: rest =>
      if c <? 0x80 then n2b c :: utf8_encode rest
      else if c <? 0x800 then utf8_2 c ++ utf8_encode rest
      else if is_high_surrogate c then
        match rest with
        | d :: rest' =>
            if is_low_surrogate d
            then utf8_4 (code_point c d) ++ utf8_encode rest'
            else utf8_replacement ++ utf8_encode rest
        | [] => utf8_replacement
        end
      else if is_low_surrogate c then utf8_replacement ++ utf8_encode rest
      else utf8_3 c ++ utf8_encode rest
  end.

Definition is_ascii (s : jsstring) : Prop := Forall (fun c => c < 0x80) s.

Lemma utf8_encode_app_ascii s t :
  is_ascii s -> utf8_encode (s ++ t) = utf8_encode s ++ utf8_encode t.
Proof.
  induction 1 as [|c s Hc Hs IH]; [reflexivity|].
  cbn [app utf8_encode]. apply N.ltb_lt in Hc. rewrite Hc.
  now rewrite IH.
Qed.

Lemma utf8_encode_ascii_length s :
  is_ascii s -> length (utf8_encode s) = length s.
Proof.
  induction 1 as [|c s Hc Hs IH]; [reflexivity|].
  cbn [utf8_encode]. apply N.ltb_lt in Hc. rewrite Hc.
  cbn [length]. now rewrite IH.
Qed.

Lemma utf8_encode_take_ascii n s :
  is_ascii s -> utf8_encode (take n s) = take n (utf8_encode s).
Proof.
  intros H. revert n.
  induction H as [|c s Hc Hs IH]; intros [|n]; try reflexivity.
  cbn [take utf8_encode]. apply N.ltb_lt in Hc. rewrite Hc.
  cbn [take]. now rewrite IH.
Qed.

End JSString.
Import JSString.

(** ** Base64, as [Buffer] reads and writes it *)

Module Base64.

(** The character of a sextet in the standard alphabet
    [A-Z a-z 0-9 + /]. *)
Definition b64_char (sextet : N) : N :=
  if sextet <? 26 then 65 + sextet
  else if sextet <? 52 then 97 + (sextet - 26)
  else if sextet <? 62 then 48 + (sextet - 52)
  else if sextet =? 62 then 43
  else 47.

Definition b64_pad : N := 61.

(** [buffer.toString("base64")]: three bytes give four characters, the
    last group is padded with [=]. *)
Fixpoint toString_base64 (buf : list byte) : jsstring :=
  match buf with
  | [] => []
  | [x] =>
      [b64_char (b2n x / 4); b64_char ((b2n x mod 4) * 16); b64_pad; b64_pad]
  | [x; y] =>
      [b64_char (b2n x / 4);
       b64_char ((b2n x mod 4) * 16 + b2n y / 16);
       b64_char ((b2n y mod 16) * 4);
       b64_pad]
  | x :: y :: z :: rest =>
      [b64_char (b2n x / 4);
       b64_char ((b2n x mod 4) * 16 + b2n y / 16);
       b64_char ((b2n y mod 16) * 4 + b2n z / 64);
       b64_char (b2n z mod 64)]
      ++ toString_base64 rest
  end.

(** The decoder's table: the standard and the URL-safe alphabet
    ([-] is 62 and [_] is 63 too); any other code unit is not a digit. *)
Definition unbase64 (c : N) : option N :=
  if (65 <=? c) && (c <=? 90) then Some (c - 65)
  else if (97 <=? c) && (c <=? 122) then Some (c - 97 + 26)
  else if (48 <=? c) && (c <=? 57) then Some (c - 48 + 52)
  else if (c =? 43) || (c =? 45) then Some 62
  else if (c =? 47) || (c =? 95) then Some 63
  else None.

(** The digits the decoder reads: it stops at the first [=] and skips
    every code unit that is not a digit. It never fails. *)
Fixpoint b64_sextets (s : jsstring) : list N :=
  match s with
  | [] => []
  | c :: rest =>
      if c =? b64_pad then []
      else match unbase64 c with
           | Some v => v :: b64_sextets rest
           | None => b64_sextets rest
           end
  end.

(** Four digits give three bytes; a last group of two or three digits
    gives one or two bytes, a single left-over digit gives none. *)
Fixpoint b64_bytes (q : list N) : list byte :=
  match q with
  | a :: b :: c :: d :: rest =>
      [n2b (a * 4 + b / 16); n2b ((b mod 16) * 16 + c / 4);
       n2b ((c mod 4) * 64 + d)]
      ++ b64_bytes rest
  | [a; b; c] => [n2b (a * 4 + b / 16); n2b ((b mod 16) * 16 + c / 4)]
  | [a; b] => [n2b (a * 4 + b / 16)]
  | _ => []
  end.

(** [Buffer.from(s, "base64")]. *)
Definition from_base64 (s : jsstring) : list byte :=
  b64_bytes (b64_sextets s).

Lemma unbase64_b64_char s : s < 64 -> unbase64 (b64_char s) = Some s.
Proof.
  intros H. destruct s as [|p]; [reflexivity|].
  do 6 (try (destruct p as [p|p|]; [| |reflexivity])); lia || reflexivity.
Qed.

Lemma b64_char_not_pad s : b64_char s <> b64_pad.
Proof.
  unfold b64_char, b64_pad.
  repeat match goal with
         | |- context [?a <? ?b] => destruct (N.ltb_spec a b)
         | |- context [?a =? ?b] => destruct (N.eqb_spec a b)
         end; lia.
Qed.

Lemma b64_sextets_char s rest :
  s < 64 -> b64_sextets (b64_char s :: rest) = s :: b64_sextets rest.
Proof.
  intros H. cbn [b64_sextets].
  destruct (N.eqb_spec (b64_char s) b64_pad) as [E|_].
  - now apply b64_char_not_pad in E.
  - now rewrite unbase64_b64_char.
Qed.

Lemma n2b_eq n b : n mod 256 = b2n b -> n2b n = b.
Proof. intros H. apply b2n_inj. now rewrite b2n_n2b. Qed.

(** Forget which byte a number came from, keeping only its range. *)
Ltac forget_bytes :=
  repeat match goal with
         | |- context [b2n ?b] =>
             let H := fresh in
             pose proof (b2n_lt b) as H;
             generalize dependent (b2n b); intros
         end.

Ltac sextet_bound :=
  match goal with |- _ < 64 => forget_bytes; euclid end.

Ltac byte_back := apply n2b_eq; forget_bytes; euclid.

Lemma list_ind3 {A} (P : list A -> Prop) :
  P [] -> (forall x, P [x]) -> (forall x y, P [x; y]) ->
  (forall x y z l, P l -> P (x :: y :: z :: l)) ->
  forall l, P l.
Proof.
  intros H0 H1 H2 H3.
  fix IH 1.
  intros [|x [|y [|z l]]];
    [exact H0 | apply H1 | apply H2 | apply H3, IH].
Qed.

Lemma b64_sextets_pad rest : b64_sextets (b64_pad :: rest) = [].
Proof. reflexivity. Qed.

(** Reading back what [toString("base64")] wrote gives the buffer. *)
Lemma from_base64_toString_base64 buf :
  from_base64 (toString_base64 buf) = buf.
Proof.
  unfold from_base64.
  induction buf as [|x|x y|x y z l IH] using list_ind3.
  - reflexivity.
  - cbn [toString_base64].
    rewrite !b64_sextets_char, b64_sextets_pad by sextet_bound.
    cbn [b64_bytes]. f_equal. byte_back.
  - cbn [toString_base64].
    rewrite !b64_sextets_char, b64_sextets_pad by sextet_bound.
    cbn [b64_bytes]. repeat f_equal; byte_back.
  - cbn [toString_base64 app].
    rewrite !b64_sextets_char by sextet_bound.
    cbn [b64_bytes app]. rewrite IH.
    repeat f_equal; byte_back.
Qed.

End Base64.
Import Base64.

(** ** Numbers as text *)

Module NumberText.

Definition digit_char (d : N) : N := 48 + d.

Definition is_digit_char (c : N) : Prop := 48 <= c <= 57.

(** The decimal digits of [n], most significant first; [fuel] bounds the
    number of digits written. *)
Fixpoint digits_fuel (fuel : nat) (n : N) : jsstring :=
  match fuel with
  | O => []
  | S fuel' =>
      if n <? 10 then [digit_char n]
      else digits_fuel fuel' (n / 10) ++ [digit_char (n mod 10)]
  end.

(** A number has no more decimal digits than binary ones, and zero has
    one. *)
Definition decimal (n : N) : jsstring := digits_fuel (S (N.to_nat (N.log2 n))) n.

(** [Number.prototype.toString()] of an integer (below 10^21 in size,
    where JavaScript still writes every digit). *)
Definition Number_toString (z : Z) : jsstring :=
  if (z <? 0)%Z then 45 :: decimal (Z.to_N (- z)) else decimal (Z.to_N z).

(** The number a string of decimal digits denotes. *)
Definition decimal_value (s : jsstring) : N :=
  fold_left (fun acc c => acc * 10 + (c - 48)) s 0.

Lemma decimal_value_snoc s c :
  decimal_value (s ++ [c]) = decimal_value s * 10 + (c - 48).
Proof. unfold decimal_value. now rewrite fold_left_app. Qed.

(** With enough fuel, a number of [k + 1] digits is written with exactly
    [k + 1] digit characters, and they denote it. *)
Lemma digits_fuel_spec k : forall fuel n,
  (k < fuel)%nat -> n < 10 ^ N.of_nat (S k) -> (k = O \/ 10 ^ N.of_nat k <= n) ->
  length (digits_fuel fuel n) = S k /\
  Forall is_digit_char (digits_fuel fuel n) /\
  decimal_value (digits_fuel fuel n) = n.
Proof.
  induction k as [|k IH]; intros fuel n Hf Hhi Hlo.
  - destruct fuel as [|fuel]; [lia|]. cbn [digits_fuel].
    change (10 ^ N.of_nat 1) with 10 in Hhi.
    destruct (N.ltb_spec n 10); [|lia].
    unfold digit_char, is_digit_char, decimal_value. cbn [length fold_left].
    split; [reflexivity|]. split; [|lia].
    constructor; [lia|constructor].
  - destruct fuel as [|fuel]; [lia|]. cbn [digits_fuel].
    destruct Hlo as [Hlo|Hlo]; [lia|].
    assert (E : forall j, 10 ^ N.of_nat (S j) = 10 * 10 ^ N.of_nat j).
    { intros j. rewrite Nat2N.inj_succ. apply N.pow_succ_r'. }
    rewrite !E in Hhi. rewrite E in Hlo.
    assert (0 < 10 ^ N.of_nat k).
    { apply N.neq_0_lt_0, N.pow_nonzero. lia. }
    destruct (N.ltb_spec n 10); [lia|].
    destruct (IH fuel (n / 10)) as (Hlen & Hdig & Hval).
    + lia.
    + rewrite E. apply N.Div0.div_lt_upper_bound. lia.
    + right. apply N.div_le_lower_bound; lia.
    + rewrite length_app, Hlen. cbn [length].
      split; [lia|]. split.
      * apply Forall_app. split; [exact Hdig|].
        constructor; [|constructor]. unfold is_digit_char, digit_char.
        euclid.
      * rewrite decimal_value_snoc, Hval. unfold digit_char.
        euclid.
Qed.

Lemma pow10_le_pow2 k : (0 < k)%nat -> 2 ^ N.of_nat (S k) <= 10 ^ N.of_nat k.
Proof.
  induction k as [|k IH]; [lia|]. intros _.
  destruct k as [|k]; [cbn; lia|].
  assert (E : forall b j, b ^ N.of_nat (S j) = b * b ^ N.of_nat j).
  { intros b j. rewrite Nat2N.inj_succ. apply N.pow_succ_r'. }
  rewrite (E 2 (S (S k))), (E 10 (S k)).
  specialize (IH ltac:(lia)). lia.
Qed.

(** The fuel [decimal] gives itself is enough. *)
Lemma decimal_spec k n :
  n < 10 ^ N.of_nat (S k) -> (k = O \/ 10 ^ N.of_nat k <= n) ->
  length (decimal n) = S k /\
  Forall is_digit_char (decimal n) /\
  decimal_value (decimal n) = n.
Proof.
  intros Hhi Hlo. apply digits_fuel_spec; try assumption.
  destruct Hlo as [->|Hlo]; [lia|].
  - destruct k as [|k]; [lia|].
    assert (H2 : 2 ^ N.of_nat (S (S k)) <= n).
    { etransitivity; [apply pow10_le_pow2; lia|exact Hlo]. }
    assert (0 < n).
    { eapply N.lt_le_trans; [|exact H2].
      apply N.neq_0_lt_0, N.pow_nonzero. lia. }
    apply N.log2_le_pow2 in H2; lia.
Qed.

End NumberText.
Import NumberText.

(** ** JSON values and [JSON.stringify] *)

Module JSON.

(** A JSON-serializable value. Numbers are the integers; an object is the
    list of its own properties in property order, each key once. *)
#[local] Unset Elimination Schemes.
Inductive json :=
| JNull
| JBool (b : bool)
| JNumber (z : Z)
| JString (s : jsstring)
| JArray (items : list json)
| JObject (props : list (jsstring * json)).
#[local] Set Elimination Schemes.

Definition hex_digit (n : N) : N :=
  if n <? 10 then 48 + n else 97 + (n - 10).

(** [\uXXXX], four lower-case hexadecimal digits. *)
Definition unicode_escape (c : N) : jsstring :=
  [92; 117; hex_digit ((c / 4096) mod 16); hex_digit ((c / 256) mod 16);
   hex_digit ((c / 16) mod 16); hex_digit (c mod 16)].

(** The body of a quoted JSON string: the two-character escapes, [\u00XX]
    for the other control characters and [\uDXXX] for an unpaired
    surrogate. *)
Fixpoint quote_body (s : jsstring) : jsstring :=
  match s with
  | [] => []
  | c :: rest =>
      if c =? 8 then js "\b" ++ quote_body rest
      else if c =? 9 then js "\t" ++ quote_body rest
      else if c =? 10 then js "\n" ++ quote_body rest
      else if c =? 12 then js "\f" ++ quote_body rest
      else if c =? 13 then js "\r" ++ quote_body rest
      else if c =? 34 then [92; 34] ++ quote_body rest
      else if c =? 92 then [92; 92] ++ quote_body rest
      else if c <? 32 then unicode_escape c ++ quote_body rest
      else if is_high_surrogate c then
        match rest with
        | d :: rest' =>
            if is_low_surrogate d then c :: d :: quote_body rest'
            else unicode_escape c ++ quote_body rest
        | [] => unicode_escape c
        end
      else if is_low_surrogate c then unicode_escape c ++ quote_body rest
      else c :: quote_body rest
  end.

Definition quote (s : jsstring) : jsstring := [34] ++ quote_body s ++ [34].

Fixpoint join_comma (parts : list jsstring) : jsstring :=
  match parts with
  | [] => []
  | [p] => p
  | p :: rest => p ++ [44] ++ join_comma rest
  end.

(** [JSON.stringify(value)] without indentation. *)
Fixpoint stringify (v : json) : jsstring :=
  match v with
  | JNull => js "null"
  | JBool true => js "true"
  | JBool false => js "false"
  | JNumber z => Number_toString z
  | JString s => quote s
  | JArray items => [91] ++ join_comma (map stringify items) ++ [93]
  | JObject props =>
      [123]
      ++ join_comma
           (map (fun kv => quote (fst kv) ++ [58] ++ stringify (snd kv)) props)
      ++ [125]
  end.

(** *** Own properties *)

Definition props := list (jsstring * json).

Definition key_eqb (a b : jsstring) : bool := bool_decide (a = b).

(** [o[k]]. *)
Fixpoint get_prop (o : props) (k : jsstring) : option json :=
  match o with
  | [] => None
  | (k', v) :: rest => if key_eqb k' k then Some v else get_prop rest k
  end.

(** [o[k] = v] for a key that is not an array index: an existing property
    keeps its place and takes the new value, a new one goes last. *)
Fixpoint set_prop (o : props) (k : jsstring) (v : json) : props :=
  match o with
  | [] => [(k, v)]
  | (k', v') :: rest =>
      if key_eqb k' k then (k, v) :: rest else (k', v') :: set_prop rest k v
  end.

Lemma get_set_prop_eq o k v : get_prop (set_prop o k v) k = Some v.
Proof.
  induction o as [|[k' v'] o IH]; cbn [set_prop get_prop].
  - unfold key_eqb. now rewrite bool_decide_eq_true_2.
  - destruct (key_eqb k' k) eqn:E; cbn [get_prop].
    + unfold key_eqb. now rewrite bool_decide_eq_true_2.
    + now rewrite E.
Qed.

Lemma get_set_prop_ne o k k' v :
  k <> k' -> get_prop (set_prop o k v) k' = get_prop o k'.
Proof.
  intros Hne.
  induction o as [|[k0 v0] o IH]; cbn [set_prop get_prop].
  - unfold key_eqb. now rewrite bool_decide_eq_false_2.
  - destruct (key_eqb k0 k) eqn:E; cbn [get_prop].
    + unfold key_eqb in *. apply bool_decide_eq_true_1 in E. subst k0.
      now rewrite !bool_decide_eq_false_2.
    + now rewrite IH.
Qed.

(** Writing a property neither adds nor drops a key that was there. *)
Lemma set_prop_keys_present o k v :
  is_Some (get_prop o k) -> map fst (set_prop o k v) = map fst o.
Proof.
  induction o as [|[k0 v0] o IH]; cbn [set_prop get_prop map fst].
  - intros [? [=]].
  - destruct (key_eqb k0 k) eqn:E; cbn [map fst].
    + intros _. apply bool_decide_eq_true_1 in E. now subst.
    + intros H. now rewrite IH.
Qed.

End JSON.
Import JSON.

(** ** What the file throws and what reaches it from Node *)

Inductive exn :=
| Error (message : jsstring)
    (** [new Error(message)], the only error the file constructs *)
| CipherError
    (** [crypto.createCipheriv] / [createDecipheriv]: key or IV of the
        wrong length for [aes-128-ctr] *)
| PublicEncryptError
    (** [crypto.publicEncrypt]: the PEM text is not a public key, or the
        key cannot wrap the data *)
| ZlibError
    (** [zlib.gunzip]: the data is not a gzip stream *)
| SyntaxError.
    (** [JSON.parse]: the text is not JSON *)

Inductive result (A : Type) :=
| Ok (value : A)
| Throw (e : exn).
Arguments Ok {A} value.
Arguments Throw {A} e.

(** The error kinds of the protocol description that the code has an error
    of its own for, read on what the code throws. The code declares no
    error class: a kind is the place the error comes from. The errors of
    [gunzip] and [JSON.parse] pass through the file as they are and have
    no kind. *)
Inductive error_kind :=
| ConfigurationError  (** the asymmetric key is absent or unreadable *)
| SequenceError       (** decode without an active context *)
| CryptoError.        (** the cipher rejects its parameters *)

Definition msg_rsa_key_required : jsstring :=
  js "RSA public key is required for counter encryption".

Definition msg_no_metadata : jsstring :=
  js "No encryption metadata available. Must encrypt a request first.".

Definition kind_of (e : exn) : option error_kind :=
  match e with
  | Error m =>
      if bool_decide (m = msg_rsa_key_required) then Some ConfigurationError
      else if bool_decide (m = msg_no_metadata) then Some SequenceError
      else None
  | PublicEncryptError => Some ConfigurationError
  | CipherError => Some CryptoError
  | ZlibError | SyntaxError => None
  end.

(** ** The primitives of Node the file relies on *)

Class Platform := {
  (** the AES-128 block function: key, 16-byte block, 16-byte block *)
  aes128_block : list byte -> list byte -> list byte;
  PublicKey : Type;
  (** reading a PEM text as an RSA public key *)
  read_pem : jsstring -> option PublicKey;
  (** RSA-OAEP with SHA-1: key, 20-byte seed, message *)
  rsa_oaep_sha1 : PublicKey -> list byte -> list byte -> option (list byte);
  (** [zlib.gunzip] *)
  gunzip : list byte -> option (list byte);
  (** [buffer.toString("utf8")], which never fails *)
  toString_utf8 : list byte -> jsstring;
  (** [JSON.parse] *)
  JSON_parse : jsstring -> option json;
}.

(** ** AES-128 in counter mode *)

Module CTR.
Section CTR.
Context `{Platform}.

(** A block read as a big-endian number, and back. *)
Definition be_to_N (block : list byte) : N :=
  fold_left (fun acc b => acc * 256 + b2n b) block 0.

Fixpoint N_to_be (len : nat) (n : N) : list byte :=
  match len with
  | O => []
  | S len' => N_to_be len' (n / 256) ++ [n2b n]
  end.

(** The [i]-th counter block: the IV plus [i], wrapping at 128 bits. *)
Definition counter_block (iv : list byte) (i : nat) : list byte :=
  N_to_be 16 ((be_to_N iv + N.of_nat i) mod 2 ^ 128).

(** Byte [j] of the key stream. *)
Definition keystream_byte (key iv : list byte) (j : nat) : byte :=
  nth (j mod 16) (aes128_block key (counter_block iv (j / 16))) x00.

(** The data from stream position [j] on, each byte XORed with its key
    stream byte. *)
Fixpoint ctr_xor (key iv : list byte) (j : nat) (data : list byte)
  : list byte :=
  match data with
  | [] => []
  | b :: rest => bxor b (keystream_byte key iv j) :: ctr_xor key iv (S j) rest
  end.

Record Cipher := { cipher_key : list byte; cipher_iv : list byte }.

(** [crypto.createCipheriv("aes-128-ctr", key, iv)]: a 16-byte key and a
    16-byte IV, or it throws. *)
Definition createCipheriv (key iv : list byte) : result Cipher :=
  if (length key =? 16)%nat && (length iv =? 16)%nat
  then Ok {| cipher_key := key; cipher_iv := iv |}
  else Throw CipherError.

(** In counter mode deciphering is the same transform. *)
Definition createDecipheriv (key iv : list byte) : result Cipher :=
  createCipheriv key iv.

(** [cipher.update(data)] on a fresh cipher, and [cipher.final()], which
    has nothing left to write in a stream mode. *)
Definition update (c : Cipher) (data : list byte) : list byte :=
  ctr_xor (cipher_key c) (cipher_iv c) 0 data.

Definition final (c : Cipher) : list byte := [].

Lemma ctr_xor_length key iv j data :
  length (ctr_xor key iv j data) = length data.
Proof.
  revert j. induction data as [|b data IH]; intros j; cbn [ctr_xor length].
  - reflexivity.
  - now rewrite IH.
Qed.

Lemma ctr_xor_involutive key iv j data :
  ctr_xor key iv j (ctr_xor key iv j data) = data.
Proof.
  revert j. induction data as [|b data IH]; intros j; cbn [ctr_xor].
  - reflexivity.
  - now rewrite bxor_involutive, IH.
Qed.

Lemma createCipheriv_Ok key iv c :
  createCipheriv key iv = Ok c ->
  length key = 16%nat /\ length iv = 16%nat /\
  c = {| cipher_key := key; cipher_iv := iv |}.
Proof.
  unfold createCipheriv.
  destruct (Nat.eqb_spec (length key) 16), (Nat.eqb_spec (length iv) 16);
    cbn [andb]; intros [=]; auto.
Qed.

Lemma createCipheriv_16 key iv :
  length key = 16%nat -> length iv = 16%nat ->
  createCipheriv key iv = Ok {| cipher_key := key; cipher_iv := iv |}.
Proof. intros Hk Hiv. unfold createCipheriv. now rewrite Hk, Hiv. Qed.

End CTR.
End CTR.

(** ** The data of the class *)

Module EncryptedPayload.
Record t := {
  ctr : jsstring;         (** Base64 of the RSA-encrypted AES counter *)
  et_payload : jsstring;  (** Base64 of the AES-encrypted data *)
}.
End EncryptedPayload.

Module EncryptionMetadata.
Record t := {
  counter : list byte;
  aesKey : jsstring;
  timestamp : jsstring;
}.
End EncryptionMetadata.

Module AESEncryptionResult.
Record t := {
  counter : list byte;
  encrypted : list byte;
}.
End AESEncryptionResult.

(** The argument of [encryptPayloadAES]: [Buffer | string | object]. *)
Inductive payload_data :=
| DataBuffer (buffer : list byte)
| DataString (text : jsstring)
| DataObject (ref : positive).

Module EncryptionConfig.
Record t := { rsaPublicKeyPem : jsstring }.
End EncryptionConfig.

(** An instance of the class [PayloadEncryption]. *)
Record Instance := {
  rsaPublicKeyPem : jsstring;
  lastEncryptionMetadata : option EncryptionMetadata.t;
}.

(** [new PayloadEncryption(config)]. *)
Definition constructor (config : EncryptionConfig.t) : Instance :=
  {| rsaPublicKeyPem := EncryptionConfig.rsaPublicKeyPem config;
     lastEncryptionMetadata := None |}.

(** ** The world a method runs in *)

Record World := {
  this : Instance;
  (** what [Date.now()] reads, in milliseconds *)
  Date_now : Z;
  (** the bytes [crypto.randomBytes] will give, and how many of them have
      been drawn *)
  entropy : nat -> byte;
  entropy_used : nat;
  (** the bytes OpenSSL's own generator will give the OAEP padding, and how
      many of them it has given: [crypto.randomBytes] is not called for
      them *)
  oaep_entropy : nat -> byte;
  oaep_used : nat;
  (** what [console.error] has written, oldest first *)
  console : list (jsstring * exn);
  (** the objects, by reference; the properties of an object hold
      immutable JSON values *)
  heap : gmap positive props;
}.

Definition with_this (i : Instance) (w : World) : World :=
  {| this := i; Date_now := Date_now w; entropy := entropy w;
     entropy_used := entropy_used w; oaep_entropy := oaep_entropy w;
     oaep_used := oaep_used w; console := console w; heap := heap w |}.

Definition with_entropy_used (n : nat) (w : World) : World :=
  {| this := this w; Date_now := Date_now w; entropy := entropy w;
     entropy_used := n; oaep_entropy := oaep_entropy w;
     oaep_used := oaep_used w; console := console w; heap := heap w |}.

Definition with_oaep_used (n : nat) (w : World) : World :=
  {| this := this w; Date_now := Date_now w; entropy := entropy w;
     entropy_used := entropy_used w; oaep_entropy := oaep_entropy w;
     oaep_used := n; console := console w; heap := heap w |}.

Definition with_console (c : list (jsstring * exn)) (w : World) : World :=
  {| this := this w; Date_now := Date_now w; entropy := entropy w;
     entropy_used := entropy_used w; oaep_entropy := oaep_entropy w;
     oaep_used := oaep_used w; console := c; heap := heap w |}.

Definition with_heap (h : gmap positive props) (w : World) : World :=
  {| this := this w; Date_now := Date_now w; entropy := entropy w;
     entropy_used := entropy_used w; oaep_entropy := oaep_entropy w;
     oaep_used := oaep_used w; console := console w; heap := h |}.

(** ** Computations: state and exceptions *)

Definition M (A : Type) : Type := World -> result A * World.

#[export] Instance M_ret : MRet M := fun A a w => (Ok a, w).

#[export] Instance M_bind : MBind M := fun A B f m w =>
  match m w with
  | (Ok a, w') => f a w'
  | (Throw e, w') => (Throw e, w')
  end.

Definition throw {A} (e : exn) : M A := fun w => (Throw e, w).

(** [try { body } catch (error) { handler(error) }]. *)
Definition try_catch {A} (body : M A) (handler : exn -> M A) : M A := fun w =>
  match body w with
  | (Ok a, w') => (Ok a, w')
  | (Throw e, w') => handler e w'
  end.

Definition lift {A} (r : result A) : M A := fun w => (r, w).

Definition console_error (label : jsstring) (e : exn) : M unit := fun w =>
  (Ok tt, with_console (console w ++ [(label, e)]) w).

(** [crypto.randomBytes(n)]. *)
Definition randomBytes (n : nat) : M (list byte) := fun w =>
  (Ok (map (entropy w) (seq (entropy_used w) n)),
   with_entropy_used (entropy_used w + n) w).

(** The own properties of the object at [l]; a reference that holds no
    object has none to copy. *)
Definition own_props (w : World) (l : positive) : props :=
  match heap w !! l with
  | Some o => o
  | None => []
  end.

(** [{ ...source, [key]: value }]: a new object. *)
Definition spread_with (source : positive) (key : jsstring) (value : json)
  : M positive := fun w =>
  let l := fresh (dom (heap w)) in
  (Ok l, with_heap (<[l := set_prop (own_props w source) key value]> (heap w)) w).

(** [JSON.stringify(object)]. *)
Definition JSON_stringify (l : positive) : M jsstring := fun w =>
  (Ok (stringify (JObject (own_props w l))), w).

(** ** The methods of [PayloadEncryption] *)

Module PayloadEncryption.
Section Methods.
Context `{Platform}.

Import EncryptedPayload.

(** [crypto.publicEncrypt({key, padding: RSA_PKCS1_OAEP_PADDING,
    oaepHash: "sha1"}, data)]: the key is read first; the padding takes its
    20-byte seed from OpenSSL's own generator, once the message is known
    to fit the key. *)
Definition publicEncrypt (pem : jsstring) (data : list byte) : M (list byte) :=
  fun w =>
  match read_pem pem with
  | None => (Throw PublicEncryptError, w)
  | Some key =>
      let seed := map (oaep_entropy w) (seq (oaep_used w) 20) in
      match rsa_oaep_sha1 key seed data with
      | Some wrapped => (Ok wrapped, with_oaep_used (oaep_used w + 20) w)
      | None => (Throw PublicEncryptError, w)
      end
  end.

(** Generate 10-digit Unix timestamp (seconds). *)
Definition generateTimestamp : M jsstring := fun w =>
  (Ok (Number_toString (Date_now w / 1000)%Z), w).

(** Normalize AES key to exactly 16 bytes (pad with '*' or truncate). *)
Definition normalizeAESKey (keyString : jsstring) : list byte :=
  let normalized := slice (padEnd keyString 16 (js "*")) 0 16 in
  utf8_encode normalized.

(** Convert bytes to UTF-8 string. *)
Definition bytesToString (buffer : list byte) : jsstring :=
  toString_utf8 buffer.

(** Encrypt payload with AES-CTR. *)
Definition encryptPayloadAES (data : payload_data) (aesKeyString : jsstring)
  : M AESEncryptionResult.t :=
  dataBuffer ← match data with
               | DataBuffer buffer => mret buffer
               | DataString text => mret (utf8_encode text)
               | DataObject ref => text ← JSON_stringify ref;
                                   mret (utf8_encode text)
               end;
  let aesKey := normalizeAESKey aesKeyString in
  counter ← randomBytes 16;
  cipher ← lift (CTR.createCipheriv aesKey counter);
  let encrypted := CTR.update cipher dataBuffer ++ CTR.final cipher in
  mret {| AESEncryptionResult.counter := counter;
          AESEncryptionResult.encrypted := encrypted |}.

(** Encrypt AES counter with RSA-OAEP. *)
Definition encryptCounterRSA (counter : list byte) : M (list byte) := fun w =>
  match rsaPublicKeyPem (this w) with
  | [] => throw (Error msg_rsa_key_required) w
  | pem => publicEncrypt pem counter w
  end.

Definition hs_request_timestamp : jsstring := js "hs_request_timestamp".

Definition set_lastEncryptionMetadata (m : option EncryptionMetadata.t)
  : M unit := fun w =>
  (Ok tt,
   with_this {| rsaPublicKeyPem := rsaPublicKeyPem (this w);
                lastEncryptionMetadata := m |} w).

(** Main request encryption function. *)
Definition encryptRequest (requestData : positive) (aesKeyString : jsstring)
  : M EncryptedPayload.t :=
  try_catch
    ((* 1. Generate timestamp *)
     timestamp ← generateTimestamp;
     (* 2. Add timestamp to payload *)
     payloadWithTimestamp ←
       spread_with requestData hs_request_timestamp (JString timestamp);
     (* 3. Convert to JSON (no compression for requests) *)
     jsonString ← JSON_stringify payloadWithTimestamp;
     (* 4. Encrypt JSON directly with AES-CTR *)
     aesResult ← encryptPayloadAES (DataString jsonString) aesKeyString;
     (* 5. Encrypt the AES counter with RSA-OAEP *)
     encryptedCounter ←
       encryptCounterRSA (AESEncryptionResult.counter aesResult);
     (* 6. Store decryption metadata for later use *)
     set_lastEncryptionMetadata
       (Some {| EncryptionMetadata.counter :=
                  AESEncryptionResult.counter aesResult;
                EncryptionMetadata.aesKey := aesKeyString;
                EncryptionMetadata.timestamp := timestamp |});;
     (* 7. Return encrypted payload ready for transmission *)
     mret {| ctr := toString_base64 encryptedCounter;
             et_payload :=
               toString_base64 (AESEncryptionResult.encrypted aesResult) |})
    (fun error =>
       console_error (js "Request encryption failed:") error;;
       throw error).

(** Decrypt response data with AES-CTR. *)
Definition decryptResponseAES (encryptedData aesKeyString : jsstring)
  (counter : list byte) : M (list byte) :=
  let encryptedBuffer := from_base64 encryptedData in
  let aesKey := normalizeAESKey aesKeyString in
  decipher ← lift (CTR.createDecipheriv aesKey counter);
  mret (CTR.update decipher encryptedBuffer ++ CTR.final decipher).

(** Decompress decrypted data using gzip. *)
Definition decompressData (compressedData : list byte) : M (list byte) :=
  try_catch
    (match gunzip compressedData with
     | Some decompressed => mret decompressed
     | None => throw ZlibError
     end)
    (fun error =>
       console_error (js "Gzip decompression failed:") error;;
       throw error).

(** Main response decryption function. *)
Definition decryptResponse (encryptedResponseData : jsstring) : M json :=
  fun w =>
  match lastEncryptionMetadata (this w) with
  | None => throw (Error msg_no_metadata) w
  | Some metadata =>
      try_catch
        ((* 1. Decrypt with AES-CTR using stored key and counter *)
         decryptedData ←
           decryptResponseAES encryptedResponseData
             (EncryptionMetadata.aesKey metadata)
             (EncryptionMetadata.counter metadata);
         (* 2. Decompress the decrypted data *)
         decompressedData ← decompressData decryptedData;
         (* 3. Convert bytes to string and parse JSON *)
         let responseString := bytesToString decompressedData in
         match JSON_parse responseString with
         | Some responseJson => mret responseJson
         | None => throw SyntaxError
         end)
        (fun error =>
           console_error (js "Response decryption failed:") error;;
           throw error)
        w
  end.

(** Get current encryption metadata. *)
Definition getLastEncryptionMetadata : M (option EncryptionMetadata.t) :=
  fun w => (Ok (lastEncryptionMetadata (this w)), w).

(** Clear encryption metadata. *)
Definition clearEncryptionMetadata : M unit :=
  set_lastEncryptionMetadata None.

End Methods.
End PayloadEncryption.

(** ** What one call of [encryptRequest] does, step by step *)

Section Runs.
Context `{Platform}.
Import PayloadEncryption.

(** The timestamp a call made in world [w] generates. *)
Definition request_timestamp (w : World) : jsstring :=
  Number_toString (Date_now w / 1000)%Z.

(** The properties of [payloadWithTimestamp]. *)
Definition timestamped (w : World) (requestData : positive) : props :=
  set_prop (own_props w requestData) hs_request_timestamp
    (JString (request_timestamp w)).

(** [jsonString], and the bytes that are encrypted. *)
Definition request_json (w : World) (requestData : positive) : jsstring :=
  stringify (JObject (timestamped w requestData)).

Definition request_plaintext (w : World) (requestData : positive) : list byte :=
  utf8_encode (request_json w requestData).

(** The 16 bytes [randomBytes(16)] gives the call, and the seed the OAEP
    padding takes. *)
Definition request_counter (w : World) : list byte :=
  map (entropy w) (seq (entropy_used w) 16).

Definition oaep_seed (w : World) : list byte :=
  map (oaep_entropy w) (seq (oaep_used w) 20).

(** The world once [payloadWithTimestamp] is allocated. *)
Definition world_alloc (w : World) (requestData : positive) : World :=
  with_heap (<[fresh (dom (heap w)) := timestamped w requestData]> (heap w)) w.

(** The world the [catch] block leaves. *)
Definition request_failed (e : exn) (w : World) : result EncryptedPayload.t * World :=
  (Throw e,
   with_console (console w ++ [(js "Request encryption failed:", e)]) w).

Definition request_metadata (w : World) (aesKeyString : jsstring)
  : EncryptionMetadata.t :=
  {| EncryptionMetadata.counter := request_counter w;
     EncryptionMetadata.aesKey := aesKeyString;
     EncryptionMetadata.timestamp := request_timestamp w |}.

Lemma own_props_alloc w k v : own_props (with_heap (<[k := v]> (heap w)) w) k = v.
Proof. unfold own_props. cbn [heap with_heap]. now rewrite lookup_insert_eq. Qed.

(** Every path through [encryptRequest]. *)
Lemma encryptRequest_cases requestData aesKeyString w :
  let w1 := world_alloc w requestData in
  let w2 := with_entropy_used (entropy_used w + 16) w1 in
  let w3 := with_oaep_used (oaep_used w + 20) w2 in
  encryptRequest requestData aesKeyString w =
    match CTR.createCipheriv (normalizeAESKey aesKeyString) (request_counter w) with
    | Throw e => request_failed e w2
    | Ok cipher =>
        match rsaPublicKeyPem (this w) with
        | [] => request_failed (Error msg_rsa_key_required) w2
        | _ :: _ =>
            match read_pem (rsaPublicKeyPem (this w)) with
            | None => request_failed PublicEncryptError w2
            | Some key =>
                match rsa_oaep_sha1 key (oaep_seed w) (request_counter w) with
                | None => request_failed PublicEncryptError w2
                | Some wrapped =>
                    (Ok {| EncryptedPayload.ctr := toString_base64 wrapped;
                           EncryptedPayload.et_payload :=
                             toString_base64
                               (CTR.update cipher (request_plaintext w requestData)
                                ++ CTR.final cipher) |},
                     with_this
                       {| rsaPublicKeyPem := rsaPublicKeyPem (this w);
                          lastEncryptionMetadata :=
                            Some (request_metadata w aesKeyString) |}
                       w3)
                end
            end
        end
    end.
Proof.
  intros w1 w2 w3.
  unfold encryptRequest, try_catch, encryptPayloadAES, generateTimestamp,
    spread_with, JSON_stringify, randomBytes, lift, encryptCounterRSA,
    set_lastEncryptionMetadata, console_error, throw, publicEncrypt.
  unfold mbind, M_bind, mret, M_ret.
  cbn beta iota.
  rewrite own_props_alloc.
  cbn [entropy entropy_used with_heap].
  fold (request_timestamp w). fold (timestamped w requestData).
  fold (request_counter w). fold (world_alloc w requestData). fold w1.
  fold (request_json w requestData). fold (request_plaintext w requestData).
  destruct (CTR.createCipheriv _ _) as [cipher|e]; [|reflexivity].
  cbn [this with_entropy_used with_heap w1 world_alloc AESEncryptionResult.counter
       AESEncryptionResult.encrypted oaep_entropy oaep_used].
  fold (oaep_seed w).
  destruct (rsaPublicKeyPem (this w)) as [|c pem] eqn:Epem; [reflexivity|].
  destruct (read_pem (c :: pem)) as [key|]; [|reflexivity].
  destruct (rsa_oaep_sha1 key _ _) as [wrapped|]; [|reflexivity].
  unfold w3, w2, w1, world_alloc, with_this, with_oaep_used, with_entropy_used,
    with_heap.
  cbn [this Date_now entropy entropy_used oaep_entropy oaep_used console heap].
  now rewrite Epem.
Qed.

End Runs.

(** ** A stand-in platform and a sample world, to run the methods

    The toy functions below are not the real primitives: they only let a
    call be evaluated on concrete data. Every theorem that follows is
    proved for all platforms. *)

Definition toy_pem_header : jsstring := js "-----BEGIN PUBLIC KEY-----".

Definition toy_platform : Platform := {|
  aes128_block key block := zip_with bxor key block;
  PublicKey := unit;
  read_pem pem :=
    if bool_decide (take (length toy_pem_header) pem = toy_pem_header)
    then Some tt else None;
  rsa_oaep_sha1 _ seed data := Some (seed ++ data);
  gunzip data :=
    match data with
    | x1f :: x8b :: rest => Some rest
    | _ => None
    end;
  toString_utf8 buffer := map b2n buffer;
  JSON_parse text :=
    if bool_decide (text = js "{}") then Some (JObject [])
    else if bool_decide (text = js "null") then Some JNull
    else None;
|}.

(** The request of the end-to-end example: [{"id_listing": ["X1","X2"]}]. *)
Definition sample_request : props :=
  [(js "id_listing", JArray [JString (js "X1"); JString (js "X2")])].

(** A request that already carries a timestamp of its own. *)
Definition stamped_request : props :=
  [(js "hs_request_timestamp", JString (js "1234567890"));
   (js "lang", JString (js "en_US"))].

Definition sample_world (pem : jsstring)
  (metadata : option EncryptionMetadata.t) : World :=
  {| this := {| rsaPublicKeyPem := pem; lastEncryptionMetadata := metadata |};
     Date_now := 1700000000123;
     entropy := fun i => n2b (N.of_nat (7 * i + 3));
     entropy_used := 0;
     oaep_entropy := fun i => n2b (N.of_nat (5 * i + 1));
     oaep_used := 0;
     console := [];
     heap := <[2%positive := stamped_request]> {[ 1%positive := sample_request ]} |}.

Definition sample_pem : jsstring :=
  js "-----BEGIN PUBLIC KEY-----MIIB-----END PUBLIC KEY-----".

Definition sample_metadata : EncryptionMetadata.t :=
  {| EncryptionMetadata.counter := replicate 16 x01;
     EncryptionMetadata.aesKey := js "abcdef";
     EncryptionMetadata.timestamp := js "1700000000" |}.

(** * Properties *)

(** ** Key normalization *)

Section KeyNormalizer.
Import PayloadEncryption.

(** The protocol's padding character, [*]. *)
Definition padding_byte : byte := x2a.

(** The normalization as the protocol description words it: the UTF-8
    bytes of the secret, padded on the right with the padding byte up to
    16 bytes, then cut to the first 16 bytes. *)
Definition normalize_spec (secret : jsstring) : list byte :=
  take 16
    (utf8_encode secret
     ++ replicate (16 - length (utf8_encode secret)) padding_byte).

Lemma fill_to_single n c : fill_to n [c] = replicate n c.
Proof.
  unfold fill_to.
  assert (E : forall m, mjoin (replicate m [c]) = replicate m c).
  { induction m as [|m IH]; [reflexivity|]. cbn. now rewrite <- IH. }
  rewrite E, take_replicate. f_equal. lia.
Qed.

Lemma padEnd_star s :
  padEnd s 16 (js "*") = s ++ replicate (16 - length s) 42.
Proof.
  unfold padEnd. destruct (Nat.leb_spec 16 (length s)) as [Hge|Hlt].
  - replace (16 - length s)%nat with O by lia. cbn [replicate].
    now rewrite app_nil_r.
  - change (js "*") with [42]. now rewrite fill_to_single.
Qed.

Lemma is_ascii_replicate_star n : is_ascii (replicate n 42).
Proof. apply Forall_replicate. reflexivity. Qed.

Lemma utf8_encode_replicate_star n :
  utf8_encode (replicate n 42) = replicate n padding_byte.
Proof. induction n as [|n IH]; [reflexivity|]. cbn [replicate utf8_encode]. now rewrite IH. Qed.

(** On the secrets made of ASCII characters only, the code is the
    description's normalization and gives 16 bytes. *)
Lemma normalizeAESKey_ascii secret :
  is_ascii secret ->
  normalizeAESKey secret = normalize_spec secret /\
  length (normalizeAESKey secret) = 16%nat.
Proof.
  intros Hs.
  assert (E : normalizeAESKey secret = normalize_spec secret).
  { unfold normalizeAESKey, normalize_spec, slice.
    rewrite padEnd_star, drop_0, Nat.sub_0_r.
    rewrite utf8_encode_take_ascii
      by (apply Forall_app; split; [exact Hs|apply is_ascii_replicate_star]).
    rewrite utf8_encode_app_ascii by exact Hs.
    now rewrite utf8_encode_replicate_star, utf8_encode_ascii_length. }
  split; [exact E|].
  rewrite E. unfold normalize_spec.
  rewrite length_take, length_app, length_replicate. lia.
Qed.

Example normalizeAESKey_abc :
  normalizeAESKey (js "abc")
  = [x61; x62; x63] ++ replicate 13 padding_byte.
Proof. reflexivity. Qed.

Example normalizeAESKey_20_ascii_bytes :
  normalizeAESKey (js "0123456789abcdefghij") = utf8_encode (js "0123456789abcdef").
Proof. reflexivity. Qed.

(** C1. [normalizeAESKey] pads and cuts the string by UTF-16 code units and
    only then encodes it, so a secret with a character outside ASCII does
    not give 16 bytes: for the one-character secret U+00E9 it gives 17
    bytes (the two bytes of the character and 15 padding bytes), where the
    description's normalization gives 16 (14 padding bytes), and the cipher
    then rejects the key; for ten such characters, whose encoding is 20
    bytes, it gives 26 bytes and not the first 16 of the encoding. *)
Theorem normalizeAESKey_non_ascii_secret :
  normalizeAESKey [0xE9] = [xc3; xa9] ++ replicate 15 padding_byte /\
  length (normalizeAESKey [0xE9]) = 17%nat /\
  normalize_spec [0xE9] = [xc3; xa9] ++ replicate 14 padding_byte /\
  normalizeAESKey [0xE9] <> normalize_spec [0xE9] /\
  (forall iv,
     CTR.createCipheriv (normalizeAESKey [0xE9]) iv = Throw CipherError) /\
  length (utf8_encode (replicate 10 0xE9)) = 20%nat /\
  length (normalizeAESKey (replicate 10 0xE9)) = 26%nat /\
  normalizeAESKey (replicate 10 0xE9) <> take 16 (utf8_encode (replicate 10 0xE9)).
Proof.
  repeat split; try reflexivity; try discriminate.
Qed.

End KeyNormalizer.

(** ** When the normalized key has 16 bytes *)

Section KeyLength.
Import PayloadEncryption.

(** The normalized string: 16 code units, whatever the secret. *)
Lemma normalizeAESKey_unfold keyString :
  normalizeAESKey keyString
  = utf8_encode (take 16 (keyString ++ replicate (16 - length keyString) 42)).
Proof.
  unfold normalizeAESKey, slice.
  now rewrite padEnd_star, drop_0, Nat.sub_0_r.
Qed.

Lemma padded_length keyString :
  length (take 16 (keyString ++ replicate (16 - length keyString) 42)) = 16%nat.
Proof. rewrite length_take, length_app, length_replicate. lia. Qed.

(** UTF-8 never writes fewer bytes than there are code units, nor more
    than three for each, and writes exactly as many only for ASCII text. *)
Lemma utf8_encode_length_bounds n : forall s,
  (length s <= n)%nat ->
  (length s <= length (utf8_encode s) <= 3 * length s)%nat /\
  (length (utf8_encode s) = length s -> is_ascii s).
Proof.
  induction n as [|n IH]; intros s Hn.
  - destruct s; [|cbn in Hn; lia]. cbn. split; [lia|]. intros _. constructor.
  - destruct s as [|c rest]; [cbn; split; [lia|intros _; constructor]|].
    cbn [length] in Hn.
    destruct (IH rest ltac:(lia)) as [Hb Ha].
    cbn [utf8_encode].
    destruct (N.ltb_spec c 0x80) as [Hc|Hc].
    { cbn [length]. split; [lia|]. intros E. constructor; [exact Hc|].
      apply Ha. lia. }
    destruct (c <? 0x800).
    { cbn [utf8_2 app length]. split; lia. }
    destruct (is_high_surrogate c).
    + destruct rest as [|d rest'].
      * cbn. split; lia.
      * destruct (is_low_surrogate d).
        -- cbn [length] in Hn.
           destruct (IH rest' ltac:(lia)) as [Hb' _].
           cbn [utf8_4 app length]. cbn [length] in *. split; lia.
        -- cbn [utf8_replacement app length]. cbn [length] in *. split; lia.
    + destruct (is_low_surrogate c).
      * cbn [utf8_replacement app length]. split; lia.
      * cbn [utf8_3 app length]. split; lia.
Qed.

Lemma utf8_encode_length_eq_iff s :
  length (utf8_encode s) = length s <-> is_ascii s.
Proof.
  split.
  - apply (utf8_encode_length_bounds (length s) s). lia.
  - apply utf8_encode_ascii_length.
Qed.

Lemma is_ascii_padded keyString :
  is_ascii (take 16 (keyString ++ replicate (16 - length keyString) 42))
  <-> is_ascii (take 16 keyString).
Proof.
  unfold is_ascii. rewrite take_app.
  rewrite Forall_app. split; [tauto|].
  intros Hs. split; [exact Hs|].
  apply Forall_take, Forall_replicate. reflexivity.
Qed.

(** The cipher accepts the key exactly for these secrets. *)
Lemma key_has_16_bytes_iff keyString :
  length (normalizeAESKey keyString) = 16%nat <-> is_ascii (take 16 keyString).
Proof.
  rewrite normalizeAESKey_unfold, <- is_ascii_padded.
  rewrite <- utf8_encode_length_eq_iff. now rewrite padded_length.
Qed.

End KeyLength.

(** ** Response decoding *)

Section ResponseDecoder.
Context `{Platform}.
Import PayloadEncryption.

(** The world the [catch] block of [decryptResponse] leaves. *)
Definition response_failed (e : exn) (w : World) : result json * World :=
  (Throw e,
   with_console (console w ++ [(js "Response decryption failed:", e)]) w).

(** The world the [catch] block of [decompressData] leaves. *)
Definition gzip_logged (w : World) : World :=
  with_console (console w ++ [(js "Gzip decompression failed:", ZlibError)]) w.

Lemma decryptResponseAES_cases data aesKeyString counter w :
  decryptResponseAES data aesKeyString counter w =
    match CTR.createDecipheriv (normalizeAESKey aesKeyString) counter with
    | Ok decipher =>
        (Ok (CTR.update decipher (from_base64 data) ++ CTR.final decipher), w)
    | Throw e => (Throw e, w)
    end.
Proof.
  unfold decryptResponseAES, lift, mbind, M_bind, mret, M_ret.
  now destruct (CTR.createDecipheriv _ _).
Qed.

(** Every path through [decryptResponse]. *)
Lemma decryptResponse_cases data w :
  decryptResponse data w =
    match lastEncryptionMetadata (this w) with
    | None => (Throw (Error msg_no_metadata), w)
    | Some metadata =>
        match decryptResponseAES data (EncryptionMetadata.aesKey metadata)
                (EncryptionMetadata.counter metadata) w with
        | (Throw e, _) => response_failed e w
        | (Ok decryptedData, _) =>
            match gunzip decryptedData with
            | None => response_failed ZlibError (gzip_logged w)
            | Some decompressedData =>
                match JSON_parse (bytesToString decompressedData) with
                | Some responseJson => (Ok responseJson, w)
                | None => response_failed SyntaxError w
                end
            end
        end
    end.
Proof.
  unfold decryptResponse.
  destruct (lastEncryptionMetadata (this w)) as [metadata|]; [|reflexivity].
  unfold try_catch, mbind, M_bind.
  rewrite decryptResponseAES_cases.
  destruct (CTR.createDecipheriv _ _) as [decipher|e]; [|reflexivity].
  unfold decompressData, try_catch.
  destruct (gunzip _) as [decompressedData|]; [|reflexivity].
  cbn beta iota.
  unfold mret at 1, M_ret at 1. cbn beta iota.
  now destruct (JSON_parse _).
Qed.

End ResponseDecoder.

(** ** Request encoding *)

Section RequestEncoder.
Context `{Platform}.
Import PayloadEncryption.

Lemma request_counter_length w : length (request_counter w) = 16%nat.
Proof. unfold request_counter. now rewrite length_map, length_seq. Qed.

(** What a successful call has done. *)
Lemma encryptRequest_Ok requestData aesKeyString w envelope w' :
  encryptRequest requestData aesKeyString w = (Ok envelope, w') ->
  exists cipher key wrapped,
    CTR.createCipheriv (normalizeAESKey aesKeyString) (request_counter w)
      = Ok cipher /\
    rsaPublicKeyPem (this w) <> [] /\
    read_pem (rsaPublicKeyPem (this w)) = Some key /\
    rsa_oaep_sha1 key (oaep_seed w) (request_counter w) = Some wrapped /\
    envelope =
      {| EncryptedPayload.ctr := toString_base64 wrapped;
         EncryptedPayload.et_payload :=
           toString_base64
             (CTR.update cipher (request_plaintext w requestData)
              ++ CTR.final cipher) |} /\
    w' = with_this
           {| rsaPublicKeyPem := rsaPublicKeyPem (this w);
              lastEncryptionMetadata := Some (request_metadata w aesKeyString) |}
           (with_oaep_used (oaep_used w + 20)
              (with_entropy_used (entropy_used w + 16)
                 (world_alloc w requestData))).
Proof.
  rewrite encryptRequest_cases. cbv zeta.
  destruct (CTR.createCipheriv _ _) as [cipher|e]; [|discriminate].
  destruct (rsaPublicKeyPem (this w)) as [|c pem] eqn:Epem; [discriminate|].
  rewrite <- Epem.
  destruct (read_pem _) as [key|] eqn:Eread; [|discriminate].
  destruct (rsa_oaep_sha1 _ _ _) as [wrapped|] eqn:Ersa; [|discriminate].
  intros [= <- <-]. exists cipher, key, wrapped.
  repeat split; try assumption; try reflexivity.
  rewrite Epem. discriminate.
Qed.

(** What a failed call has done: the counter is drawn, the error is
    logged, the instance is as it was. *)
Lemma encryptRequest_Throw requestData aesKeyString w e w' :
  encryptRequest requestData aesKeyString w = (Throw e, w') ->
  this w' = this w /\
  (entropy_used w + 16 <= entropy_used w')%nat /\
  console w' = console w ++ [(js "Request encryption failed:", e)].
Proof.
  rewrite encryptRequest_cases. cbv zeta. unfold request_failed.
  destruct (CTR.createCipheriv _ _) as [cipher|e0].
  - destruct (rsaPublicKeyPem (this w)) as [|c pem] eqn:Epem.
    + intros [= <- <-]. cbn. repeat split; lia.
    + rewrite <- Epem. destruct (read_pem _) as [key|].
      * destruct (rsa_oaep_sha1 _ _ _) as [wrapped|]; [discriminate|].
        intros [= <- <-]. cbn. repeat split; lia.
      * intros [= <- <-]. cbn. repeat split; lia.
  - intros [= <- <-]. cbn. repeat split; lia.
Qed.

(** With a key of 16 bytes, a readable PEM text and a key that can wrap
    the counter, the call returns. *)
Lemma encryptRequest_returns requestData aesKeyString w key wrapped :
  length (normalizeAESKey aesKeyString) = 16%nat ->
  rsaPublicKeyPem (this w) <> [] ->
  read_pem (rsaPublicKeyPem (this w)) = Some key ->
  rsa_oaep_sha1 key (oaep_seed w) (request_counter w) = Some wrapped ->
  exists envelope w',
    encryptRequest requestData aesKeyString w = (Ok envelope, w').
Proof.
  intros Hk Hpem Hread Hrsa.
  rewrite encryptRequest_cases. cbv zeta.
  rewrite CTR.createCipheriv_16 by (exact Hk || apply request_counter_length).
  destruct (rsaPublicKeyPem (this w)) as [|c pem] eqn:Epem; [congruence|].
  rewrite Hread, Hrsa. eauto.
Qed.

(** What the symmetric step of the decoder makes of the [et_payload] of a
    call that returned. *)
Lemma decrypt_after_encrypt requestData aesKeyString w envelope w' :
  encryptRequest requestData aesKeyString w = (Ok envelope, w') ->
  decryptResponseAES (EncryptedPayload.et_payload envelope) aesKeyString
    (request_counter w) w'
  = (Ok (request_plaintext w requestData), w').
Proof.
  intros Hrun.
  destruct (encryptRequest_Ok _ _ _ _ _ Hrun)
    as (cipher & key & wrapped & Hc & _ & _ & _ & -> & _).
  rewrite decryptResponseAES_cases.
  cbn [EncryptedPayload.et_payload].
  unfold CTR.createDecipheriv. rewrite Hc.
  rewrite from_base64_toString_base64.
  unfold CTR.final, CTR.update. rewrite !app_nil_r.
  now rewrite CTR.ctr_xor_involutive.
Qed.

End RequestEncoder.

Section RequestProperties.
Context `{Platform}.
Import PayloadEncryption.

(** C2, as the code has it. When the public key is missing (the empty
    text) or is not a readable PEM key, and the secret normalizes to 16
    bytes, [encryptRequest] fails with the configuration error (the
    [Error] of the key check, or the one [publicEncrypt] throws), the
    stored metadata is what it was before the call, and the 16 random
    bytes of the counter have been drawn: the key is looked at only after
    the AES step. *)
Theorem encryptRequest_key_failure requestData aesKeyString w :
  rsaPublicKeyPem (this w) = [] \/ read_pem (rsaPublicKeyPem (this w)) = None ->
  length (normalizeAESKey aesKeyString) = 16%nat ->
  exists e w',
    encryptRequest requestData aesKeyString w = (Throw e, w') /\
    e = match rsaPublicKeyPem (this w) with
        | [] => Error msg_rsa_key_required
        | _ :: _ => PublicEncryptError
        end /\
    kind_of e = Some ConfigurationError /\
    lastEncryptionMetadata (this w') = lastEncryptionMetadata (this w) /\
    entropy_used w' = (entropy_used w + 16)%nat.
Proof.
  intros Hkey Hlen.
  rewrite encryptRequest_cases. cbv zeta. unfold request_failed.
  rewrite CTR.createCipheriv_16 by (exact Hlen || apply request_counter_length).
  destruct (rsaPublicKeyPem (this w)) as [|c pem] eqn:Epem.
  - eexists _, _. repeat split; reflexivity.
  - destruct Hkey as [Hkey|Hkey]; [discriminate|]. rewrite Hkey.
    eexists _, _. repeat split; reflexivity.
Qed.

(** C3. After a successful [encryptRequest], the symmetric step of the
    decoder ([decryptResponseAES]: Base64-decode, then AES-128-CTR with the
    normalized secret and the recorded counter) applied to [et_payload]
    gives back exactly the UTF-8 bytes of the JSON text of the payload with
    the timestamp field: nothing is compressed on the request path. *)
Theorem symmetric_step_recovers_request requestData aesKeyString w envelope w' :
  encryptRequest requestData aesKeyString w = (Ok envelope, w') ->
  exists metadata,
    lastEncryptionMetadata (this w') = Some metadata /\
    EncryptionMetadata.aesKey metadata = aesKeyString /\
    decryptResponseAES (EncryptedPayload.et_payload envelope)
      (EncryptionMetadata.aesKey metadata)
      (EncryptionMetadata.counter metadata) w'
    = (Ok (utf8_encode
             (stringify
                (JObject
                   (set_prop (own_props w requestData) hs_request_timestamp
                      (JString (request_timestamp w)))))),
       w').
Proof.
  intros Hrun.
  destruct (encryptRequest_Ok _ _ _ _ _ Hrun)
    as (cipher & key & wrapped & Hc & _ & _ & _ & -> & ->).
  exists (request_metadata w aesKeyString).
  split; [reflexivity|]. split; [reflexivity|].
  rewrite decryptResponseAES_cases.
  cbn [request_metadata EncryptionMetadata.aesKey EncryptionMetadata.counter
       EncryptedPayload.et_payload].
  unfold CTR.createDecipheriv. rewrite Hc.
  rewrite from_base64_toString_base64.
  unfold CTR.final, CTR.update. rewrite !app_nil_r.
  now rewrite CTR.ctr_xor_involutive.
Qed.

(** C6. The bytes [et_payload] decodes to are exactly as many as the UTF-8
    bytes of the serialized timestamped payload. *)
Theorem et_payload_length requestData aesKeyString w envelope w' :
  encryptRequest requestData aesKeyString w = (Ok envelope, w') ->
  length (from_base64 (EncryptedPayload.et_payload envelope))
  = length (utf8_encode
              (stringify
                 (JObject
                    (set_prop (own_props w requestData) hs_request_timestamp
                       (JString (request_timestamp w)))))).
Proof.
  intros Hrun.
  destruct (encryptRequest_Ok _ _ _ _ _ Hrun)
    as (cipher & key & wrapped & Hc & _ & _ & _ & -> & _).
  cbn [EncryptedPayload.et_payload].
  rewrite from_base64_toString_base64.
  unfold CTR.final, CTR.update. rewrite app_nil_r.
  apply CTR.ctr_xor_length.
Qed.

(** C7. A successful [encryptRequest] leaves as the stored metadata exactly
    the counter of the call (16 bytes from the random generator, the IV of
    the cipher that produced [et_payload] and the message wrapped into
    [ctr]), the secret string as the caller passed it, and the timestamp
    put into the payload; what was stored before plays no part. *)
Theorem encryptRequest_replaces_context requestData aesKeyString w envelope w' :
  encryptRequest requestData aesKeyString w = (Ok envelope, w') ->
  lastEncryptionMetadata (this w')
  = Some {| EncryptionMetadata.counter := request_counter w;
            EncryptionMetadata.aesKey := aesKeyString;
            EncryptionMetadata.timestamp := request_timestamp w |} /\
  request_counter w = map (entropy w) (seq (entropy_used w) 16) /\
  length (request_counter w) = 16%nat /\
  (exists cipher,
     CTR.createCipheriv (normalizeAESKey aesKeyString) (request_counter w)
       = Ok cipher /\
     CTR.cipher_iv cipher = request_counter w /\
     EncryptedPayload.et_payload envelope
     = toString_base64
         (CTR.update cipher (request_plaintext w requestData)
          ++ CTR.final cipher)) /\
  (exists key wrapped,
     read_pem (rsaPublicKeyPem (this w)) = Some key /\
     rsa_oaep_sha1 key (oaep_seed w) (request_counter w) = Some wrapped /\
     EncryptedPayload.ctr envelope = toString_base64 wrapped) /\
  get_prop (timestamped w requestData) hs_request_timestamp
  = Some (JString (request_timestamp w)).
Proof.
  intros Hrun.
  destruct (encryptRequest_Ok _ _ _ _ _ Hrun)
    as (cipher & key & wrapped & Hc & _ & Hread & Hrsa & -> & ->).
  split; [reflexivity|]. split; [reflexivity|].
  split; [apply request_counter_length|].
  split.
  - exists cipher. split; [exact Hc|]. split; [|reflexivity].
    apply CTR.createCipheriv_Ok in Hc as (_ & _ & ->). reflexivity.
  - split.
    + now exists key, wrapped.
    + apply get_set_prop_eq.
Qed.

Lemma encryptRequest_heap requestData aesKeyString w :
  heap (snd (encryptRequest requestData aesKeyString w))
  = <[fresh (dom (heap w)) := timestamped w requestData]> (heap w).
Proof.
  rewrite encryptRequest_cases. cbv zeta. unfold request_failed.
  destruct (CTR.createCipheriv _ _); [|reflexivity].
  destruct (rsaPublicKeyPem (this w)); [reflexivity|].
  destruct (read_pem _); [|reflexivity].
  now destruct (rsa_oaep_sha1 _ _ _).
Qed.

(** C10. For a payload object that already has a [hs_request_timestamp]
    field, what a returning [encryptRequest] has serialized and encrypted
    into [et_payload] is the object with that field holding the fresh
    timestamp instead of the caller's value (same keys in the same order,
    every other field as it was); the caller's object is the same after
    the call, whether it returns or throws; and the call does return when
    the secret normalizes to 16 bytes and the key is configured, readable
    and able to wrap the counter. *)
Theorem encryptRequest_overrides_timestamp requestData aesKeyString w o old :
  heap w !! requestData = Some o ->
  get_prop o hs_request_timestamp = Some old ->
  let stamped := set_prop o hs_request_timestamp (JString (request_timestamp w)) in
  get_prop stamped hs_request_timestamp = Some (JString (request_timestamp w)) /\
  map fst stamped = map fst o /\
  (forall k, k <> hs_request_timestamp -> get_prop stamped k = get_prop o k) /\
  heap (snd (encryptRequest requestData aesKeyString w)) !! requestData = Some o /\
  (forall envelope w',
     encryptRequest requestData aesKeyString w = (Ok envelope, w') ->
     decryptResponseAES (EncryptedPayload.et_payload envelope) aesKeyString
       (request_counter w) w'
     = (Ok (utf8_encode (stringify (JObject stamped))), w') /\
     heap w' !! requestData = Some o) /\
  (forall key wrapped,
     is_ascii (take 16 aesKeyString) ->
     rsaPublicKeyPem (this w) <> [] ->
     read_pem (rsaPublicKeyPem (this w)) = Some key ->
     rsa_oaep_sha1 key (oaep_seed w) (request_counter w) = Some wrapped ->
     exists envelope w',
       encryptRequest requestData aesKeyString w = (Ok envelope, w')).
Proof.
  intros Hobj Hold stamped.
  assert (Hheap : heap (snd (encryptRequest requestData aesKeyString w))
                    !! requestData = Some o).
  { rewrite encryptRequest_heap, lookup_insert_ne; [exact Hobj|].
    intros E. apply (is_fresh (dom (heap w))).
    rewrite E. apply elem_of_dom. eauto. }
  split; [apply get_set_prop_eq|].
  split; [apply set_prop_keys_present; rewrite Hold; eauto|].
  split; [intros k Hk; apply get_set_prop_ne; congruence|].
  split; [exact Hheap|].
  split.
  - intros envelope w' Hrun. split.
    + rewrite (decrypt_after_encrypt _ _ _ _ _ Hrun).
      unfold request_plaintext, request_json, timestamped, own_props.
      now rewrite Hobj.
    + now rewrite Hrun in Hheap.
  - intros key wrapped Hk Hpem Hread Hrsa.
    apply key_has_16_bytes_iff in Hk.
    eapply encryptRequest_returns; eassumption.
Qed.

(** C9. At any time from 10^9 up to (not including) 10^10 seconds of Unix
    time, the timestamp is exactly 10 decimal digits, the whole seconds of
    the clock; a returning [encryptRequest] stores that string and has
    encrypted into [et_payload] the JSON text of the payload with that
    string in its [hs_request_timestamp] field; and the call does return
    when the secret normalizes to 16 bytes and the key is configured,
    readable and able to wrap the counter. *)
Theorem generateTimestamp_ten_digits w :
  (10 ^ 9 <= Date_now w / 1000 < 10 ^ 10)%Z ->
  exists ts,
    generateTimestamp w = (Ok ts, w) /\
    length ts = 10%nat /\
    Forall is_digit_char ts /\
    Z.of_N (decimal_value ts) = (Date_now w / 1000)%Z /\
    (forall requestData aesKeyString envelope w',
       encryptRequest requestData aesKeyString w = (Ok envelope, w') ->
       EncryptionMetadata.timestamp <$> lastEncryptionMetadata (this w')
       = Some ts /\
       exists payload,
         decryptResponseAES (EncryptedPayload.et_payload envelope)
           aesKeyString (request_counter w) w'
         = (Ok (utf8_encode (stringify (JObject payload))), w') /\
         payload = set_prop (own_props w requestData) hs_request_timestamp
                     (JString ts) /\
         get_prop payload hs_request_timestamp = Some (JString ts)) /\
    (forall requestData aesKeyString key wrapped,
       is_ascii (take 16 aesKeyString) ->
       rsaPublicKeyPem (this w) <> [] ->
       read_pem (rsaPublicKeyPem (this w)) = Some key ->
       rsa_oaep_sha1 key (oaep_seed w) (request_counter w) = Some wrapped ->
       exists envelope w',
         encryptRequest requestData aesKeyString w = (Ok envelope, w')).
Proof.
  intros Hrange. exists (request_timestamp w).
  split; [reflexivity|].
  assert (Hts : request_timestamp w = decimal (Z.to_N (Date_now w / 1000))).
  { unfold request_timestamp, Number_toString.
    destruct (Z.ltb_spec (Date_now w / 1000) 0); [lia|reflexivity]. }
  destruct (decimal_spec 9 (Z.to_N (Date_now w / 1000)))
    as (Hlen & Hdig & Hval).
  { change (10 ^ N.of_nat 10) with (Z.to_N (10 ^ 10)). lia. }
  { right. change (10 ^ N.of_nat 9) with (Z.to_N (10 ^ 9)). lia. }
  split; [now rewrite Hts|]. split; [now rewrite Hts|].
  split; [rewrite Hts, Hval; lia|].
  split.
  - intros requestData aesKeyString envelope w' Hrun. split.
    + destruct (encryptRequest_Ok _ _ _ _ _ Hrun)
        as (_ & _ & _ & _ & _ & _ & _ & _ & ->).
      reflexivity.
    + eexists. split; [apply (decrypt_after_encrypt _ _ _ _ _ Hrun)|].
      split; [reflexivity|apply get_set_prop_eq].
  - intros requestData aesKeyString key wrapped Hk Hpem Hread Hrsa.
    apply key_has_16_bytes_iff in Hk.
    eapply encryptRequest_returns; eassumption.
Qed.

End RequestProperties.

Section ResponseProperties.
Context `{Platform}.
Import PayloadEncryption.

(** The only way the symmetric step fails is the cipher rejecting its
    key or counter. *)
Lemma decryptResponseAES_Throw data aesKeyString counter w e w' :
  decryptResponseAES data aesKeyString counter w = (Throw e, w') ->
  e = CipherError /\ kind_of e = Some CryptoError.
Proof.
  rewrite decryptResponseAES_cases.
  unfold CTR.createDecipheriv, CTR.createCipheriv.
  destruct (_ && _); [discriminate|]. now intros [= <- <-].
Qed.

Ltac corrupt_case :=
  split; [reflexivity|]; split; [reflexivity|]; split; [discriminate|];
  let Hthrow := fresh in
  intros ? ? ? ? ? ? Hthrow;
  apply decryptResponseAES_Throw in Hthrow as [-> ?];
  split; [reflexivity|discriminate].

(** C4, as the code has it. With an active context and a ciphertext the
    symmetric step decrypts, if the decrypted bytes are not gzip data, or
    they inflate to text that is not JSON, [decryptResponse] fails by
    throwing again, unchanged, the error [gunzip] or [JSON.parse] raised:
    it is not an error the file constructs, and it is never the error of
    a cipher fault, which is the only error the symmetric step itself can
    throw. *)
Theorem decryptResponse_corrupt data w metadata decryptedData :
  lastEncryptionMetadata (this w) = Some metadata ->
  decryptResponseAES data (EncryptionMetadata.aesKey metadata)
    (EncryptionMetadata.counter metadata) w = (Ok decryptedData, w) ->
  gunzip decryptedData = None \/
  (exists d, gunzip decryptedData = Some d /\ JSON_parse (bytesToString d) = None) ->
  exists e,
    fst (decryptResponse data w) = Throw e /\
    e = match gunzip decryptedData with
        | None => ZlibError
        | Some _ => SyntaxError
        end /\
    (forall message, e <> Error message) /\
    (forall data0 aesKeyString counter w0 e0 w0',
       decryptResponseAES data0 aesKeyString counter w0 = (Throw e0, w0') ->
       e0 = CipherError /\ e0 <> e).
Proof.
  intros Hmeta Hdec Hbad.
  rewrite decryptResponse_cases, Hmeta, Hdec.
  destruct Hbad as [Hgz|(d & Hgz & Hjson)]; rewrite Hgz; [|rewrite Hjson].
  - exists ZlibError. corrupt_case.
  - exists SyntaxError. corrupt_case.
Qed.

(** C5. Without stored metadata (none was ever stored, as on a new
    instance, or it was cleared), [decryptResponse] throws its sequence
    error for every input and leaves the whole world as it was: nothing
    is decoded, deciphered, inflated, parsed or logged. *)
Theorem decryptResponse_without_context data w :
  lastEncryptionMetadata (this w) = None ->
  decryptResponse data w = (Throw (Error msg_no_metadata), w) /\
  kind_of (Error msg_no_metadata) = Some SequenceError /\
  (forall config, lastEncryptionMetadata (constructor config) = None) /\
  (forall w0, lastEncryptionMetadata (this (snd (clearEncryptionMetadata w0))) = None).
Proof.
  intros Hnone. rewrite decryptResponse_cases, Hnone.
  repeat split.
Qed.

(** C8. [decryptResponse] never changes the instance: after the call,
    returned or thrown, the stored metadata (and the key) are what they
    were before it. *)
Theorem decryptResponse_keeps_context data w :
  lastEncryptionMetadata (this (snd (decryptResponse data w)))
  = lastEncryptionMetadata (this w) /\
  this (snd (decryptResponse data w)) = this w.
Proof.
  assert (E : this (snd (decryptResponse data w)) = this w).
  { rewrite decryptResponse_cases.
    destruct (lastEncryptionMetadata (this w)) as [metadata|]; [|reflexivity].
    destruct (decryptResponseAES _ _ _ w) as [[decryptedData|e] w1];
      [|reflexivity].
    destruct (gunzip decryptedData) as [d|]; [|reflexivity].
    now destruct (JSON_parse _). }
  now rewrite E.
Qed.

End ResponseProperties.

(** ** The theorems at work on the sample world *)

Section Samples.
Import PayloadEncryption.

(** A double-quoted literal. *)
Definition quoted (s : string) : jsstring := [34] ++ js s ++ [34].

(** The JSON text of the stamped request: the caller's timestamp is gone,
    the field is still first. *)
Example request_json_stamped :
  request_json (sample_world sample_pem None) 2%positive
  = [123] ++ quoted "hs_request_timestamp" ++ [58] ++ quoted "1700000000"
    ++ [44] ++ quoted "lang" ++ [58] ++ quoted "en_US" ++ [125].
Proof. reflexivity. Qed.

(** The JSON text of the end-to-end example. *)
Example request_json_sample :
  request_json (sample_world sample_pem None) 1%positive
  = [123] ++ quoted "id_listing" ++ [58; 91] ++ quoted "X1" ++ [44]
    ++ quoted "X2" ++ [93; 44] ++ quoted "hs_request_timestamp" ++ [58]
    ++ quoted "1700000000" ++ [125].
Proof. reflexivity. Qed.

(** C2, refuted as stated: with no public key configured the call fails
    with the key error, but the random generator has given its 16 counter
    bytes by then. *)
Lemma encryptRequest_missing_key_draws_counter :
  fst (encryptRequest (H := toy_platform) 1%positive (js "abcdef")
         (sample_world [] None))
  = Throw (Error msg_rsa_key_required) /\
  entropy_used (sample_world [] None) = 0%nat /\
  entropy_used
    (snd (encryptRequest (H := toy_platform) 1%positive (js "abcdef")
            (sample_world [] None)))
  = 16%nat /\
  entropy_used
    (snd (encryptRequest (H := toy_platform) 1%positive (js "abcdef")
            (sample_world [] None)))
  <> entropy_used (sample_world [] None).
Proof. repeat split; try reflexivity. vm_compute. discriminate. Qed.

Lemma encryptRequest_key_failure_witness :
  exists e w',
    encryptRequest (H := toy_platform) 1%positive (js "abcdef")
      (sample_world [] None) = (Throw e, w') /\
    e = Error msg_rsa_key_required /\
    kind_of e = Some ConfigurationError /\
    lastEncryptionMetadata (this w') = None /\
    entropy_used w' = 16%nat.
Proof.
  exact (encryptRequest_key_failure (H := toy_platform) 1%positive (js "abcdef")
           (sample_world [] None) (or_introl eq_refl) eq_refl).
Defined.

Lemma symmetric_step_recovers_request_witness :
  exists envelope w',
    encryptRequest (H := toy_platform) 1%positive (js "abcdef")
      (sample_world sample_pem None) = (Ok envelope, w') /\
    exists metadata,
      lastEncryptionMetadata (this w') = Some metadata /\
      EncryptionMetadata.aesKey metadata = js "abcdef" /\
      decryptResponseAES (H := toy_platform)
        (EncryptedPayload.et_payload envelope)
        (EncryptionMetadata.aesKey metadata)
        (EncryptionMetadata.counter metadata) w'
      = (Ok (utf8_encode
               (stringify
                  (JObject
                     (set_prop sample_request hs_request_timestamp
                        (JString (js "1700000000")))))),
         w').
Proof.
  destruct (encryptRequest (H := toy_platform) 1%positive (js "abcdef")
              (sample_world sample_pem None)) as [[envelope|e] w'] eqn:Hrun.
  - exists envelope, w'. split; [reflexivity|].
    exact (symmetric_step_recovers_request _ _ _ _ _ Hrun).
  - vm_compute in Hrun. discriminate.
Defined.

Lemma et_payload_length_witness :
  exists envelope w',
    encryptRequest (H := toy_platform) 1%positive (js "abcdef")
      (sample_world sample_pem None) = (Ok envelope, w') /\
    length (from_base64 (EncryptedPayload.et_payload envelope))
    = length (utf8_encode
                (stringify
                   (JObject
                      (set_prop sample_request hs_request_timestamp
                         (JString (js "1700000000")))))).
Proof.
  destruct (encryptRequest (H := toy_platform) 1%positive (js "abcdef")
              (sample_world sample_pem None)) as [[envelope|e] w'] eqn:Hrun.
  - exists envelope, w'. split; [reflexivity|].
    exact (et_payload_length _ _ _ _ _ Hrun).
  - vm_compute in Hrun. discriminate.
Defined.

Lemma encryptRequest_replaces_context_witness :
  exists envelope w',
    encryptRequest (H := toy_platform) 1%positive (js "abcdef")
      (sample_world sample_pem (Some sample_metadata)) = (Ok envelope, w') /\
    lastEncryptionMetadata (this w')
    = Some {| EncryptionMetadata.counter :=
                map (fun i => n2b (N.of_nat (7 * i + 3))) (seq 0 16);
              EncryptionMetadata.aesKey := js "abcdef";
              EncryptionMetadata.timestamp := js "1700000000" |}.
Proof.
  destruct (encryptRequest (H := toy_platform) 1%positive (js "abcdef")
              (sample_world sample_pem (Some sample_metadata)))
    as [[envelope|e] w'] eqn:Hrun.
  - exists envelope, w'. split; [reflexivity|].
    exact (proj1 (encryptRequest_replaces_context _ _ _ _ _ Hrun)).
  - vm_compute in Hrun. discriminate.
Defined.

Lemma encryptRequest_overrides_timestamp_witness :
  exists envelope w',
    encryptRequest (H := toy_platform) 2%positive (js "abcdef")
      (sample_world sample_pem None) = (Ok envelope, w') /\
    decryptResponseAES (H := toy_platform)
      (EncryptedPayload.et_payload envelope) (js "abcdef")
      (request_counter (sample_world sample_pem None)) w'
    = (Ok (utf8_encode
             ([123] ++ quoted "hs_request_timestamp" ++ [58]
              ++ quoted "1700000000" ++ [44] ++ quoted "lang" ++ [58]
              ++ quoted "en_US" ++ [125])),
       w') /\
    heap w' !! 2%positive = Some stamped_request.
Proof.
  destruct (encryptRequest_overrides_timestamp (H := toy_platform) 2%positive
              (js "abcdef") (sample_world sample_pem None) stamped_request
              (JString (js "1234567890")) eq_refl eq_refl)
    as (_ & _ & _ & _ & Hpayload & Hreturns).
  destruct (Hreturns tt
              (oaep_seed (sample_world sample_pem None)
               ++ request_counter (sample_world sample_pem None)))
    as (envelope & w' & Hrun).
  - repeat constructor.
  - discriminate.
  - reflexivity.
  - reflexivity.
  - exists envelope, w'. split; [exact Hrun|].
    exact (Hpayload envelope w' Hrun).
Defined.

Lemma generateTimestamp_ten_digits_witness :
  exists envelope w',
    encryptRequest (H := toy_platform) 1%positive (js "abcdef")
      (sample_world sample_pem None) = (Ok envelope, w') /\
    generateTimestamp (sample_world sample_pem None)
    = (Ok (js "1700000000"), sample_world sample_pem None) /\
    EncryptionMetadata.timestamp <$> lastEncryptionMetadata (this w')
    = Some (js "1700000000") /\
    decryptResponseAES (H := toy_platform)
      (EncryptedPayload.et_payload envelope) (js "abcdef")
      (request_counter (sample_world sample_pem None)) w'
    = (Ok (utf8_encode
             ([123] ++ quoted "id_listing" ++ [58; 91] ++ quoted "X1" ++ [44]
              ++ quoted "X2" ++ [93; 44] ++ quoted "hs_request_timestamp"
              ++ [58] ++ quoted "1700000000" ++ [125])),
       w').
Proof.
  destruct (generateTimestamp_ten_digits (H := toy_platform)
              (sample_world sample_pem None))
    as (ts & Hgen & _ & _ & _ & Hpayload & Hreturns).
  - split; now vm_compute.
  - injection Hgen as <-.
    destruct (Hreturns 1%positive (js "abcdef") tt
                (oaep_seed (sample_world sample_pem None)
                 ++ request_counter (sample_world sample_pem None)))
      as (envelope & w' & Hrun).
    + repeat constructor.
    + discriminate.
    + reflexivity.
    + reflexivity.
    + exists envelope, w'. split; [exact Hrun|]. split; [reflexivity|].
      destruct (Hpayload _ _ _ _ Hrun) as (Hmeta & payload & Hdec & -> & _).
      split; [exact Hmeta|exact Hdec].
Defined.

(** Two bytes that the toy [gunzip] accepts and that hold no JSON text,
    encrypted under the sample metadata. *)
Definition sample_not_json : jsstring :=
  toString_base64
    (CTR.ctr_xor (H := toy_platform)
       (normalizeAESKey (EncryptionMetadata.aesKey sample_metadata))
       (EncryptionMetadata.counter sample_metadata) 0 [x1f; x8b]).

(** C4, refuted as stated: there is no corrupt-response error. Bytes that
    are not gzip data make [decryptResponse] throw [gunzip]'s own error,
    text that is not JSON makes it throw [JSON.parse]'s own error: two
    different errors, neither of them constructed by the file. *)
Lemma decryptResponse_rethrows_library_errors :
  fst (decryptResponse (H := toy_platform) (js "QUJD")
         (sample_world sample_pem (Some sample_metadata)))
  = Throw ZlibError /\
  fst (decryptResponse (H := toy_platform) sample_not_json
         (sample_world sample_pem (Some sample_metadata)))
  = Throw SyntaxError /\
  ZlibError <> SyntaxError /\
  (forall message, ZlibError <> Error message) /\
  (forall message, SyntaxError <> Error message).
Proof. repeat split; try reflexivity; discriminate. Qed.

Lemma decryptResponse_corrupt_witness :
  fst (decryptResponse (H := toy_platform) (js "QUJD")
         (sample_world sample_pem (Some sample_metadata)))
  = Throw ZlibError /\
  fst (decryptResponse (H := toy_platform) sample_not_json
         (sample_world sample_pem (Some sample_metadata)))
  = Throw SyntaxError.
Proof.
  split.
  - destruct (decryptResponse_corrupt (H := toy_platform) (js "QUJD")
                (sample_world sample_pem (Some sample_metadata))
                sample_metadata _ eq_refl eq_refl (or_introl eq_refl))
      as (e & Hrun & -> & _).
    exact Hrun.
  - destruct (decryptResponse_corrupt (H := toy_platform) sample_not_json
                (sample_world sample_pem (Some sample_metadata))
                sample_metadata _ eq_refl eq_refl
                (or_intror (ex_intro _ [] (conj eq_refl eq_refl))))
      as (e & Hrun & -> & _).
    exact Hrun.
Defined.

Lemma decryptResponse_without_context_witness :
  decryptResponse (H := toy_platform) (js "QUJD") (sample_world sample_pem None)
  = (Throw (Error msg_no_metadata), sample_world sample_pem None).
Proof.
  apply (decryptResponse_without_context (H := toy_platform) (js "QUJD")
           (sample_world sample_pem None)).
  reflexivity.
Defined.

End Samples.

(** * Further properties of [PayloadEncryption] *)


Section KeyNormalizerMore.
Import PayloadEncryption.

(** X1. Whatever the secret, the normalized key has between 16 and 48
    bytes, and it has the 16 bytes AES-128 needs exactly when the first 16
    code units of the secret are ASCII characters. *)
Theorem normalizeAESKey_length_16_iff keyString :
  (16 <= length (normalizeAESKey keyString) <= 48)%nat /\
  (length (normalizeAESKey keyString) = 16%nat <-> is_ascii (take 16 keyString)).
Proof.
  split.
  - rewrite normalizeAESKey_unfold.
    pose proof (padded_length keyString) as Hlen.
    set (padded := take 16 (keyString ++ replicate (16 - length keyString) 42)) in *.
    destruct (utf8_encode_length_bounds (length padded) padded (Nat.le_refl _))
      as [Hb _].
    lia.
  - apply key_has_16_bytes_iff.
Qed.

(** X2. Only the first 16 code units of the secret count: two secrets
    that agree on them normalize to the same key. *)
Theorem normalizeAESKey_first_16_units keyString :
  normalizeAESKey keyString = normalizeAESKey (take 16 keyString).
Proof.
  rewrite !normalizeAESKey_unfold.
  destruct (Nat.le_gt_cases 16 (length keyString)) as [Hge|Hlt].
  - rewrite length_take.
    replace (16 - length keyString)%nat with O by lia.
    replace (16 - 16 `min` length keyString)%nat with O by lia.
    cbn [replicate]. rewrite !app_nil_r. now rewrite take_take.
  - now rewrite (take_ge keyString) by lia.
Qed.

(** X3. A secret shorter than 16 code units and the same secret followed
    by the padding character [*] normalize to the same key. *)
Theorem normalizeAESKey_trailing_star keyString :
  (length keyString < 16)%nat ->
  normalizeAESKey (keyString ++ [42]) = normalizeAESKey keyString.
Proof.
  intros Hlt. rewrite !normalizeAESKey_unfold. f_equal.
  rewrite length_app. cbn [length].
  replace (16 - length keyString)%nat with (S (16 - (length keyString + 1)))
    by lia.
  cbn [replicate]. now rewrite <- app_assoc.
Qed.

(** X4. On a secret of ASCII characters only, the key is the first 16
    characters of the secret, one byte each, followed by [*] bytes up to
    16: what the byte-level normalization of the protocol description
    gives. *)
Theorem normalizeAESKey_ascii_bytes keyString :
  is_ascii keyString ->
  normalizeAESKey keyString
  = take 16 (utf8_encode keyString)
    ++ replicate (16 - length keyString) padding_byte /\
  normalizeAESKey keyString = normalize_spec keyString /\
  length (normalizeAESKey keyString) = 16%nat.
Proof.
  intros Hs. destruct (normalizeAESKey_ascii keyString Hs) as [E Hlen].
  split; [|split; assumption].
  rewrite E. unfold normalize_spec.
  rewrite take_app, utf8_encode_ascii_length by exact Hs.
  f_equal. rewrite take_replicate. f_equal. lia.
Qed.

End KeyNormalizerMore.

Lemma normalizeAESKey_trailing_star_witness :
  PayloadEncryption.normalizeAESKey (js "abcdef" ++ [42])
  = PayloadEncryption.normalizeAESKey (js "abcdef").
Proof. apply normalizeAESKey_trailing_star. cbn. lia. Defined.

Lemma normalizeAESKey_ascii_bytes_witness :
  PayloadEncryption.normalizeAESKey (js "abcdef")
  = utf8_encode (js "abcdef") ++ replicate 10 padding_byte /\
  length (PayloadEncryption.normalizeAESKey (js "abcdef")) = 16%nat.
Proof.
  destruct (normalizeAESKey_ascii_bytes (js "abcdef")) as (E & _ & Hlen).
  - repeat constructor.
  - split; [exact E|exact Hlen].
Defined.

(** ** The two encryption steps on their own *)

Section EncryptionSteps.
Context `{Platform}.
Import PayloadEncryption.

(** The bytes [encryptPayloadAES] encrypts, for each form of its input. *)
Definition data_bytes (w : World) (data : payload_data) : list byte :=
  match data with
  | DataBuffer buffer => buffer
  | DataString text => utf8_encode text
  | DataObject ref => utf8_encode (stringify (JObject (own_props w ref)))
  end.

Lemma encryptPayloadAES_cases data aesKeyString w :
  encryptPayloadAES data aesKeyString w =
    match CTR.createCipheriv (normalizeAESKey aesKeyString) (request_counter w) with
    | Ok cipher =>
        (Ok {| AESEncryptionResult.counter := request_counter w;
               AESEncryptionResult.encrypted :=
                 CTR.update cipher (data_bytes w data) ++ CTR.final cipher |},
         with_entropy_used (entropy_used w + 16) w)
    | Throw e => (Throw e, with_entropy_used (entropy_used w + 16) w)
    end.
Proof.
  unfold encryptPayloadAES, JSON_stringify, randomBytes, lift.
  unfold mbind, M_bind, mret, M_ret.
  destruct data; cbn beta iota;
    cbn [entropy entropy_used with_entropy_used]; fold (request_counter w);
    now destruct (CTR.createCipheriv _ _).
Qed.

Lemma createCipheriv_counter_cases key w :
  CTR.createCipheriv key (request_counter w)
  = if (length key =? 16)%nat
    then Ok {| CTR.cipher_key := key; CTR.cipher_iv := request_counter w |}
    else Throw CipherError.
Proof.
  unfold CTR.createCipheriv. rewrite request_counter_length.
  now destruct (length key =? 16)%nat.
Qed.

(** X5. [encryptPayloadAES] returns exactly when the first 16 code units
    of the key string are ASCII characters, whatever the data. *)
Theorem encryptPayloadAES_returns_iff data aesKeyString w :
  (exists r w', encryptPayloadAES data aesKeyString w = (Ok r, w'))
  <-> is_ascii (take 16 aesKeyString).
Proof.
  rewrite encryptPayloadAES_cases, createCipheriv_counter_cases.
  rewrite <- key_has_16_bytes_iff.
  destruct (Nat.eqb_spec (length (normalizeAESKey aesKeyString)) 16) as [E|E].
  - split; [intros _; exact E|eauto].
  - split; [intros (r & w' & [=])|intros E'; contradiction].
Qed.

(** X6. What [encryptPayloadAES] returns for a buffer: a counter of 16
    bytes, a ciphertext exactly as long as the buffer, which
    [decryptResponseAES] with the same key string and counter turns back
    into the buffer; and the call has drawn exactly 16 random bytes and
    changed nothing else. *)
Theorem encryptPayloadAES_round_trip buffer aesKeyString w r w' :
  encryptPayloadAES (DataBuffer buffer) aesKeyString w = (Ok r, w') ->
  length (AESEncryptionResult.counter r) = 16%nat /\
  length (AESEncryptionResult.encrypted r) = length buffer /\
  w' = with_entropy_used (entropy_used w + 16) w /\
  decryptResponseAES (toString_base64 (AESEncryptionResult.encrypted r))
    aesKeyString (AESEncryptionResult.counter r) w'
  = (Ok buffer, w').
Proof.
  rewrite encryptPayloadAES_cases.
  destruct (CTR.createCipheriv _ _) as [cipher|e] eqn:Hc; [|discriminate].
  intros [= <- <-]. cbn [AESEncryptionResult.counter AESEncryptionResult.encrypted].
  unfold CTR.final, CTR.update, data_bytes. rewrite app_nil_r.
  split; [apply request_counter_length|].
  split; [apply CTR.ctr_xor_length|].
  split; [reflexivity|].
  rewrite decryptResponseAES_cases. unfold CTR.createDecipheriv. rewrite Hc.
  rewrite from_base64_toString_base64.
  unfold CTR.final, CTR.update. rewrite app_nil_r.
  now rewrite CTR.ctr_xor_involutive.
Qed.

(** X7. When [encryptPayloadAES] throws, it is the cipher rejecting the
    key, and the 16 random bytes of the counter are drawn all the same:
    the key is normalized, but not checked, before the counter is
    generated. *)
Theorem encryptPayloadAES_throws data aesKeyString w e w' :
  encryptPayloadAES data aesKeyString w = (Throw e, w') ->
  e = CipherError /\
  length (normalizeAESKey aesKeyString) <> 16%nat /\
  w' = with_entropy_used (entropy_used w + 16) w.
Proof.
  rewrite encryptPayloadAES_cases, createCipheriv_counter_cases.
  destruct (Nat.eqb_spec (length (normalizeAESKey aesKeyString)) 16) as [E|E];
    [discriminate|].
  now intros [= <- <-].
Qed.

(** X8. Without a usable public key [encryptCounterRSA] throws (its own
    [Error] for a missing key, [publicEncrypt]'s for an unreadable one)
    and leaves the world as it was: no random byte is drawn for the
    padding. *)
Theorem encryptCounterRSA_without_key counter w :
  rsaPublicKeyPem (this w) = [] \/ read_pem (rsaPublicKeyPem (this w)) = None ->
  encryptCounterRSA counter w
  = (Throw match rsaPublicKeyPem (this w) with
           | [] => Error msg_rsa_key_required
           | _ :: _ => PublicEncryptError
           end,
     w).
Proof.
  intros Hkey. unfold encryptCounterRSA, publicEncrypt, throw.
  destruct (rsaPublicKeyPem (this w)) as [|c pem]; [reflexivity|].
  destruct Hkey as [Hkey|Hkey]; [discriminate|]. now rewrite Hkey.
Qed.

End EncryptionSteps.

Lemma encryptPayloadAES_round_trip_witness :
  exists r w',
    PayloadEncryption.encryptPayloadAES (H := toy_platform)
      (DataBuffer [x01; x02; x03]) (js "abcdef") (sample_world sample_pem None)
    = (Ok r, w') /\
    length (AESEncryptionResult.encrypted r) = 3%nat /\
    PayloadEncryption.decryptResponseAES (H := toy_platform)
      (toString_base64 (AESEncryptionResult.encrypted r)) (js "abcdef")
      (AESEncryptionResult.counter r) w'
    = (Ok [x01; x02; x03], w').
Proof.
  destruct (PayloadEncryption.encryptPayloadAES (H := toy_platform)
              (DataBuffer [x01; x02; x03]) (js "abcdef")
              (sample_world sample_pem None)) as [[r|e] w'] eqn:Hrun.
  - exists r, w'. split; [reflexivity|].
    destruct (encryptPayloadAES_round_trip _ _ _ _ _ Hrun) as (_ & Hl & _ & Hd).
    split; [exact Hl|exact Hd].
  - vm_compute in Hrun. discriminate.
Defined.

Lemma encryptPayloadAES_throws_witness :
  exists w',
    PayloadEncryption.encryptPayloadAES (H := toy_platform)
      (DataString (js "{}")) [0xE9] (sample_world sample_pem None)
    = (Throw CipherError, w') /\
    entropy_used w' = 16%nat.
Proof.
  destruct (PayloadEncryption.encryptPayloadAES (H := toy_platform)
              (DataString (js "{}")) [0xE9] (sample_world sample_pem None))
    as [[r|e] w'] eqn:Hrun.
  - vm_compute in Hrun. discriminate.
  - destruct (encryptPayloadAES_throws _ _ _ _ _ Hrun) as (-> & _ & ->).
    eexists. split; reflexivity.
Defined.

Lemma encryptCounterRSA_without_key_witness :
  PayloadEncryption.encryptCounterRSA (H := toy_platform) (replicate 16 x01)
    (sample_world (js "not a key") None)
  = (Throw PublicEncryptError, sample_world (js "not a key") None).
Proof.
  apply (encryptCounterRSA_without_key (H := toy_platform)).
  right. reflexivity.
Defined.

(** ** More on request encoding *)

Section RequestEncoderMore.
Context `{Platform}.
Import PayloadEncryption.

Lemma set_prop_absent o k v :
  get_prop o k = None -> set_prop o k v = o ++ [(k, v)].
Proof.
  induction o as [|[k' v'] o IH]; cbn [get_prop set_prop app]; [reflexivity|].
  destruct (key_eqb k' k); [discriminate|].
  intros Hnone. now rewrite IH.
Qed.

(** The instance with other stored metadata. *)
Definition with_metadata (m : option EncryptionMetadata.t) (w : World) : World :=
  with_this {| rsaPublicKeyPem := rsaPublicKeyPem (this w);
               lastEncryptionMetadata := m |} w.

(** X9. [encryptRequest] returns exactly when the first 16 code units of
    the secret are ASCII, a public key is configured and readable, and
    RSA-OAEP can wrap the counter with it. *)
Theorem encryptRequest_returns_iff requestData aesKeyString w :
  (exists envelope w',
     encryptRequest requestData aesKeyString w = (Ok envelope, w'))
  <->
  is_ascii (take 16 aesKeyString) /\
  rsaPublicKeyPem (this w) <> [] /\
  exists key,
    read_pem (rsaPublicKeyPem (this w)) = Some key /\
    is_Some (rsa_oaep_sha1 key (oaep_seed w) (request_counter w)).
Proof.
  rewrite <- key_has_16_bytes_iff. split.
  - intros (envelope & w' & Hrun).
    destruct (encryptRequest_Ok _ _ _ _ _ Hrun)
      as (cipher & key & wrapped & Hc & Hpem & Hread & Hrsa & _).
    apply CTR.createCipheriv_Ok in Hc as (Hk & _).
    split; [exact Hk|]. split; [exact Hpem|].
    exists key. split; [exact Hread|]. rewrite Hrsa. eauto.
  - intros (Hk & Hpem & key & Hread & [wrapped Hrsa]).
    eapply encryptRequest_returns; eassumption.
Qed.

(** X10. Every way [encryptRequest] fails. The error is the cipher's (the
    secret does not normalize to 16 bytes), the [Error] of the key check
    (no key configured) or [publicEncrypt]'s (unreadable key, or a key
    that cannot wrap the counter). In each case the instance is untouched,
    the error is logged once, and [crypto.randomBytes] has given the 16
    bytes of the counter and no more. *)
Theorem encryptRequest_failure_effects requestData aesKeyString w e w' :
  encryptRequest requestData aesKeyString w = (Throw e, w') ->
  this w' = this w /\
  Date_now w' = Date_now w /\
  console w' = console w ++ [(js "Request encryption failed:", e)] /\
  entropy_used w' = (entropy_used w + 16)%nat /\
  ((e = CipherError /\ ~ is_ascii (take 16 aesKeyString)) \/
   (e = Error msg_rsa_key_required /\ rsaPublicKeyPem (this w) = []) \/
   (e = PublicEncryptError /\ read_pem (rsaPublicKeyPem (this w)) = None) \/
   (e = PublicEncryptError /\
    exists key, read_pem (rsaPublicKeyPem (this w)) = Some key /\
                rsa_oaep_sha1 key (oaep_seed w) (request_counter w) = None)).
Proof.
  rewrite encryptRequest_cases. cbv zeta. unfold request_failed.
  rewrite createCipheriv_counter_cases, <- key_has_16_bytes_iff.
  destruct (Nat.eqb_spec (length (normalizeAESKey aesKeyString)) 16) as [E|E].
  - destruct (rsaPublicKeyPem (this w)) as [|c pem] eqn:Epem.
    + intros [= <- <-]. cbn. repeat split. right. left. auto.
    + destruct (read_pem (c :: pem)) as [key|] eqn:Eread.
      * destruct (rsa_oaep_sha1 _ _ _) as [wrapped|] eqn:Ersa; [discriminate|].
        intros [= <- <-]. cbn. repeat split. do 3 right. eauto.
      * intros [= <- <-]. cbn. repeat split. right. right. left. auto.
  - intros [= <- <-]. cbn. repeat split. left. auto.
Qed.

(** The same call with other metadata stored. *)
Lemma encryptRequest_with_metadata requestData aesKeyString w m :
  encryptRequest requestData aesKeyString (with_metadata m w)
  = match encryptRequest requestData aesKeyString w with
    | (Ok envelope, w') => (Ok envelope, w')
    | (Throw e, w') => (Throw e, with_metadata m w')
    end.
Proof.
  rewrite !encryptRequest_cases. cbv zeta.
  change (request_counter (with_metadata m w)) with (request_counter w).
  change (rsaPublicKeyPem (this (with_metadata m w)))
    with (rsaPublicKeyPem (this w)).
  change (oaep_seed (with_metadata m w)) with (oaep_seed w).
  change (request_plaintext (with_metadata m w) requestData)
    with (request_plaintext w requestData).
  destruct (CTR.createCipheriv _ _) as [cipher|e]; [|reflexivity].
  destruct (rsaPublicKeyPem (this w)) as [|c pem]; [reflexivity|].
  destruct (read_pem _) as [key|]; [|reflexivity].
  now destruct (rsa_oaep_sha1 _ _ _) as [wrapped|].
Qed.

(** X11. [encryptRequest] never looks at the stored metadata: with any
    other metadata stored, the call returns or throws the same, and when
    it returns the world it leaves is the same too. *)
Theorem encryptRequest_ignores_stored_context requestData aesKeyString w m :
  fst (encryptRequest requestData aesKeyString (with_metadata m w))
  = fst (encryptRequest requestData aesKeyString w) /\
  (forall envelope w',
     encryptRequest requestData aesKeyString w = (Ok envelope, w') ->
     encryptRequest requestData aesKeyString (with_metadata m w)
     = (Ok envelope, w')).
Proof.
  rewrite encryptRequest_with_metadata.
  destruct (encryptRequest requestData aesKeyString w) as [[envelope|e] w'].
  - split; [reflexivity|]. now intros ? ? [= <- <-].
  - split; [reflexivity|discriminate].
Qed.

(** X12. [encryptRequest] changes no object that existed before the
    call, whether it returns or throws: the payload it stamps and
    serializes is a copy. *)
Theorem encryptRequest_heap_frame requestData aesKeyString w l o :
  heap w !! l = Some o ->
  heap (snd (encryptRequest requestData aesKeyString w)) !! l = Some o.
Proof.
  intros Hl. rewrite encryptRequest_heap.
  rewrite lookup_insert_ne; [exact Hl|].
  intros E. apply (is_fresh (dom (heap w))).
  rewrite E. apply elem_of_dom. eauto.
Qed.

(** X13. For a payload object without a [hs_request_timestamp] field,
    what a returning [encryptRequest] has encrypted into [et_payload] is
    the JSON text of the caller's fields in their order followed by the
    timestamp as the last field; and the call does return when the secret
    normalizes to 16 bytes and the key is configured, readable and able
    to wrap the counter. *)
Theorem encryptRequest_appends_timestamp requestData aesKeyString w o :
  heap w !! requestData = Some o ->
  get_prop o hs_request_timestamp = None ->
  (forall envelope w',
     encryptRequest requestData aesKeyString w = (Ok envelope, w') ->
     decryptResponseAES (EncryptedPayload.et_payload envelope) aesKeyString
       (request_counter w) w'
     = (Ok (utf8_encode
              (stringify
                 (JObject
                    (o ++ [(hs_request_timestamp,
                            JString (request_timestamp w))])))),
        w')) /\
  (forall key wrapped,
     is_ascii (take 16 aesKeyString) ->
     rsaPublicKeyPem (this w) <> [] ->
     read_pem (rsaPublicKeyPem (this w)) = Some key ->
     rsa_oaep_sha1 key (oaep_seed w) (request_counter w) = Some wrapped ->
     exists envelope w',
       encryptRequest requestData aesKeyString w = (Ok envelope, w')).
Proof.
  intros Hobj Hnone. split.
  - intros envelope w' Hrun.
    rewrite (decrypt_after_encrypt _ _ _ _ _ Hrun).
    unfold request_plaintext, request_json, timestamped, own_props.
    now rewrite Hobj, (set_prop_absent _ _ _ Hnone).
  - intros key wrapped Hk Hpem Hread Hrsa.
    apply key_has_16_bytes_iff in Hk.
    eapply encryptRequest_returns; eassumption.
Qed.

(** X14. Two calls in a row that both return: the second counter is made
    of the 16 bytes [crypto.randomBytes] gives after the 16 of the first
    counter, so no byte of it serves twice; the stored metadata holds the
    second call's counter and secret; and 32 bytes have been drawn in
    all. *)
Theorem encryptRequest_twice r1 s1 r2 s2 w e1 w1 e2 w2 :
  encryptRequest r1 s1 w = (Ok e1, w1) ->
  encryptRequest r2 s2 w1 = (Ok e2, w2) ->
  EncryptionMetadata.counter <$> lastEncryptionMetadata (this w1)
  = Some (map (entropy w) (seq (entropy_used w) 16)) /\
  EncryptionMetadata.counter <$> lastEncryptionMetadata (this w2)
  = Some (map (entropy w) (seq (entropy_used w + 16) 16)) /\
  EncryptionMetadata.aesKey <$> lastEncryptionMetadata (this w2) = Some s2 /\
  entropy_used w2 = (entropy_used w + 32)%nat.
Proof.
  intros Hrun1 Hrun2.
  destruct (encryptRequest_Ok _ _ _ _ _ Hrun1) as (_ & _ & _ & _ & _ & _ & _ & _ & ->).
  destruct (encryptRequest_Ok _ _ _ _ _ Hrun2) as (_ & _ & _ & _ & _ & _ & _ & _ & ->).
  cbn [this with_this lastEncryptionMetadata fmap option_fmap option_map
       request_metadata EncryptionMetadata.counter EncryptionMetadata.aesKey].
  unfold request_counter.
  cbn [entropy entropy_used with_this with_entropy_used with_oaep_used
       world_alloc with_heap].
  repeat split. lia.
Qed.

End RequestEncoderMore.

Lemma encryptRequest_failure_effects_witness :
  exists w',
    PayloadEncryption.encryptRequest (H := toy_platform) 1%positive [0xE9]
      (sample_world sample_pem (Some sample_metadata))
    = (Throw CipherError, w') /\
    this w' = this (sample_world sample_pem (Some sample_metadata)) /\
    console w' = [(js "Request encryption failed:", CipherError)] /\
    entropy_used w' = 16%nat.
Proof.
  destruct (PayloadEncryption.encryptRequest (H := toy_platform) 1%positive
              [0xE9] (sample_world sample_pem (Some sample_metadata)))
    as [[envelope|e] w'] eqn:Hrun.
  - vm_compute in Hrun. discriminate.
  - destruct (encryptRequest_failure_effects _ _ _ _ _ Hrun)
      as (Hthis & _ & Hlog & Hdrawn & Hwhy).
    assert (e = CipherError) as ->.
    { destruct Hwhy as [[-> _]|[(_ & Hpem)|[(_ & Hread)|(_ & k & _ & Hrsa)]]];
        [reflexivity|discriminate..]. }
    exists w'. repeat split; assumption.
Defined.

Lemma encryptRequest_heap_frame_witness :
  heap (snd (PayloadEncryption.encryptRequest (H := toy_platform) 1%positive
               (js "abcdef") (sample_world sample_pem None))) !! 2%positive
  = Some stamped_request.
Proof.
  apply (encryptRequest_heap_frame (H := toy_platform)). reflexivity.
Defined.

Lemma encryptRequest_appends_timestamp_witness :
  exists envelope w',
    PayloadEncryption.encryptRequest (H := toy_platform) 1%positive (js "abcdef")
      (sample_world sample_pem None) = (Ok envelope, w') /\
    PayloadEncryption.decryptResponseAES (H := toy_platform)
      (EncryptedPayload.et_payload envelope) (js "abcdef")
      (request_counter (sample_world sample_pem None)) w'
    = (Ok (utf8_encode
             ([123] ++ quoted "id_listing" ++ [58; 91] ++ quoted "X1" ++ [44]
              ++ quoted "X2" ++ [93; 44] ++ quoted "hs_request_timestamp"
              ++ [58] ++ quoted "1700000000" ++ [125])),
       w').
Proof.
  destruct (encryptRequest_appends_timestamp (H := toy_platform) 1%positive
              (js "abcdef") (sample_world sample_pem None) sample_request
              eq_refl eq_refl) as [Hpayload Hreturns].
  destruct (Hreturns tt
              (oaep_seed (sample_world sample_pem None)
               ++ request_counter (sample_world sample_pem None)))
    as (envelope & w' & Hrun).
  - repeat constructor.
  - discriminate.
  - reflexivity.
  - reflexivity.
  - exists envelope, w'. split; [exact Hrun|].
    exact (Hpayload envelope w' Hrun).
Defined.

Lemma encryptRequest_twice_witness :
  exists e1 w1 e2 w2,
    PayloadEncryption.encryptRequest (H := toy_platform) 1%positive (js "abcdef")
      (sample_world sample_pem None) = (Ok e1, w1) /\
    PayloadEncryption.encryptRequest (H := toy_platform) 2%positive (js "ghijkl")
      w1 = (Ok e2, w2) /\
    EncryptionMetadata.counter <$> lastEncryptionMetadata (this w2)
    = Some (map (fun i => n2b (N.of_nat (7 * i + 3))) (seq 16 16)) /\
    entropy_used w2 = 32%nat.
Proof.
  destruct (PayloadEncryption.encryptRequest (H := toy_platform) 1%positive
              (js "abcdef") (sample_world sample_pem None))
    as [[e1|x1] w1] eqn:Hrun1; [|vm_compute in Hrun1; discriminate].
  destruct (PayloadEncryption.encryptRequest (H := toy_platform) 2%positive
              (js "ghijkl") w1) as [[e2|x2] w2] eqn:Hrun2.
  - exists e1, w1, e2, w2. split; [reflexivity|]. split; [exact Hrun2|].
    destruct (encryptRequest_twice _ _ _ _ _ _ _ _ _ Hrun1 Hrun2)
      as (_ & Hc2 & _ & Hdrawn).
    split; [exact Hc2|exact Hdrawn].
  - vm_compute in Hrun1. injection Hrun1 as <- <-.
    vm_compute in Hrun2. discriminate.
Defined.

(** ** More on response decoding *)

Section ResponseDecoderMore.
Context `{Platform}.
Import PayloadEncryption.

Lemma createDecipheriv_16 key iv :
  length key = 16%nat -> length iv = 16%nat ->
  CTR.createDecipheriv key iv
  = Ok {| CTR.cipher_key := key; CTR.cipher_iv := iv |}.
Proof. apply CTR.createCipheriv_16. Qed.

(** What the server sends back for a compressed body: the body encrypted
    in counter mode under the key and counter, in Base64. *)
Definition server_response (key counter compressed : list byte) : jsstring :=
  toString_base64 (CTR.ctr_xor key counter 0 compressed).

(** X15. With a stored context whose secret normalizes to 16 bytes and
    whose counter has 16 bytes, [decryptResponse] decodes every response
    the server builds from that key and counter: it returns the JSON value
    of the inflated body and leaves the world as it was (context kept,
    nothing logged). *)
Theorem decryptResponse_decodes w metadata compressed decompressed value :
  lastEncryptionMetadata (this w) = Some metadata ->
  length (normalizeAESKey (EncryptionMetadata.aesKey metadata)) = 16%nat ->
  length (EncryptionMetadata.counter metadata) = 16%nat ->
  gunzip compressed = Some decompressed ->
  JSON_parse (bytesToString decompressed) = Some value ->
  decryptResponse
    (server_response (normalizeAESKey (EncryptionMetadata.aesKey metadata))
       (EncryptionMetadata.counter metadata) compressed)
    w
  = (Ok value, w).
Proof.
  intros Hmeta Hkey Hctr Hgz Hjson.
  rewrite decryptResponse_cases, Hmeta, decryptResponseAES_cases.
  rewrite createDecipheriv_16 by assumption.
  unfold server_response. rewrite from_base64_toString_base64.
  unfold CTR.update, CTR.final. cbn [CTR.cipher_key CTR.cipher_iv].
  rewrite app_nil_r, CTR.ctr_xor_involutive, Hgz.
  now rewrite Hjson.
Qed.

(** X16. Request and response pair up: after an [encryptRequest] that
    returned, [decryptResponse] decodes the response the server builds
    from the secret of that call and its counter. *)
Theorem request_then_response requestData aesKeyString w envelope w'
    compressed decompressed value :
  encryptRequest requestData aesKeyString w = (Ok envelope, w') ->
  gunzip compressed = Some decompressed ->
  JSON_parse (bytesToString decompressed) = Some value ->
  decryptResponse
    (server_response (normalizeAESKey aesKeyString) (request_counter w)
       compressed)
    w'
  = (Ok value, w').
Proof.
  intros Hrun Hgz Hjson.
  destruct (encryptRequest_Ok _ _ _ _ _ Hrun)
    as (cipher & key & wrapped & Hc & _ & _ & _ & _ & ->).
  apply CTR.createCipheriv_Ok in Hc as (Hk & Hiv & _).
  rewrite decryptResponse_cases.
  cbn [this with_this lastEncryptionMetadata].
  rewrite decryptResponseAES_cases.
  cbn [request_metadata EncryptionMetadata.aesKey EncryptionMetadata.counter].
  rewrite createDecipheriv_16 by assumption.
  unfold server_response. rewrite from_base64_toString_base64.
  unfold CTR.update, CTR.final. cbn [CTR.cipher_key CTR.cipher_iv].
  rewrite app_nil_r, CTR.ctr_xor_involutive, Hgz.
  now rewrite Hjson.
Qed.

(** X17. All [decryptResponse] ever changes is the console. A call that
    returns, or that finds no stored context, changes nothing at all; a
    cipher or JSON failure is logged once, a gzip failure twice (by
    [decompressData], then by [decryptResponse]), each time with the
    error that is thrown. *)
Theorem decryptResponse_effects data w :
  match decryptResponse data w with
  | (Ok _, w') => w' = w
  | (Throw e, w') =>
      (lastEncryptionMetadata (this w) = None /\ e = Error msg_no_metadata /\
       w' = w) \/
      (e = ZlibError /\
       w' = with_console
              (console w
               ++ [(js "Gzip decompression failed:", ZlibError);
                   (js "Response decryption failed:", ZlibError)])
              w) \/
      ((e = CipherError \/ e = SyntaxError) /\
       w' = with_console
              (console w ++ [(js "Response decryption failed:", e)]) w)
  end.
Proof.
  rewrite decryptResponse_cases.
  destruct (lastEncryptionMetadata (this w)) as [metadata|] eqn:Hmeta; [|auto].
  destruct (decryptResponseAES _ _ _ w) as [[decryptedData|e] w1] eqn:Hdec.
  - destruct (gunzip decryptedData) as [d|].
    + destruct (JSON_parse _); [reflexivity|].
      unfold response_failed. right. right. auto.
    + unfold response_failed, gzip_logged, with_console.
      cbn [this Date_now entropy entropy_used console heap].
      right. left. split; [reflexivity|]. now rewrite <- app_assoc.
  - apply decryptResponseAES_Throw in Hdec as [-> _].
    unfold response_failed. right. right. auto.
Qed.

(** X18. With a stored context the cipher cannot use (a secret whose
    first 16 code units are not all ASCII, or a counter that is not 16
    bytes long), [decryptResponse] fails with the cipher's error for every
    input, before anything is inflated or parsed. *)
Theorem decryptResponse_cipher_fault data w metadata :
  lastEncryptionMetadata (this w) = Some metadata ->
  ~ is_ascii (take 16 (EncryptionMetadata.aesKey metadata)) \/
  length (EncryptionMetadata.counter metadata) <> 16%nat ->
  decryptResponse data w
  = (Throw CipherError,
     with_console
       (console w ++ [(js "Response decryption failed:", CipherError)]) w) /\
  kind_of CipherError = Some CryptoError.
Proof.
  intros Hmeta Hbad. split; [|reflexivity].
  rewrite decryptResponse_cases, Hmeta, decryptResponseAES_cases.
  unfold CTR.createDecipheriv, CTR.createCipheriv.
  rewrite <- key_has_16_bytes_iff in Hbad.
  destruct (Nat.eqb_spec
              (length (normalizeAESKey (EncryptionMetadata.aesKey metadata))) 16),
           (Nat.eqb_spec (length (EncryptionMetadata.counter metadata)) 16);
    cbn [andb]; try reflexivity.
  tauto.
Qed.

(** X19. [clearEncryptionMetadata] changes the stored metadata and
    nothing else: the key is kept, so a later [encryptRequest] returns or
    throws what it would have without the clearing;
    [getLastEncryptionMetadata] then reports no metadata; and clearing
    twice is clearing once. *)
Theorem clearEncryptionMetadata_effects w :
  let w1 := snd (clearEncryptionMetadata w) in
  rsaPublicKeyPem (this w1) = rsaPublicKeyPem (this w) /\
  getLastEncryptionMetadata w1 = (Ok None, w1) /\
  snd (clearEncryptionMetadata w1) = w1 /\
  (Date_now w1, entropy_used w1, console w1, heap w1)
  = (Date_now w, entropy_used w, console w, heap w) /\
  (forall requestData aesKeyString,
     fst (encryptRequest requestData aesKeyString w1)
     = fst (encryptRequest requestData aesKeyString w)).
Proof.
  cbv zeta. repeat split.
  intros requestData aesKeyString.
  change (snd (clearEncryptionMetadata w)) with (with_metadata None w).
  rewrite encryptRequest_with_metadata.
  now destruct (encryptRequest requestData aesKeyString w) as [[envelope|e] w'].
Qed.

End ResponseDecoderMore.

(** The compressed body of the toy platform for the JSON text of the empty
    object. *)
Definition sample_compressed : list byte := [x1f; x8b; x7b; x7d].

Lemma decryptResponse_decodes_witness :
  PayloadEncryption.decryptResponse (H := toy_platform)
    (server_response (H := toy_platform)
       (PayloadEncryption.normalizeAESKey (js "abcdef")) (replicate 16 x01)
       sample_compressed)
    (sample_world sample_pem (Some sample_metadata))
  = (Ok (JObject []), sample_world sample_pem (Some sample_metadata)).
Proof.
  apply (decryptResponse_decodes (H := toy_platform)
           (sample_world sample_pem (Some sample_metadata)) sample_metadata
           sample_compressed [x7b; x7d] (JObject []));
    reflexivity.
Defined.

Lemma request_then_response_witness :
  exists envelope w',
    PayloadEncryption.encryptRequest (H := toy_platform) 1%positive (js "abcdef")
      (sample_world sample_pem None) = (Ok envelope, w') /\
    PayloadEncryption.decryptResponse (H := toy_platform)
      (server_response (H := toy_platform)
         (PayloadEncryption.normalizeAESKey (js "abcdef"))
         (request_counter (sample_world sample_pem None)) sample_compressed)
      w'
    = (Ok (JObject []), w').
Proof.
  destruct (PayloadEncryption.encryptRequest (H := toy_platform) 1%positive
              (js "abcdef") (sample_world sample_pem None))
    as [[envelope|e] w'] eqn:Hrun.
  - exists envelope, w'. split; [reflexivity|].
    apply (request_then_response (H := toy_platform) _ _ _ _ _
             sample_compressed [x7b; x7d] (JObject []) Hrun);
      reflexivity.
  - vm_compute in Hrun. discriminate.
Defined.

Lemma decryptResponse_cipher_fault_witness :
  fst (PayloadEncryption.decryptResponse (H := toy_platform) (js "QUJD")
         (sample_world sample_pem
            (Some {| EncryptionMetadata.counter := replicate 16 x01;
                     EncryptionMetadata.aesKey := [0xE9];
                     EncryptionMetadata.timestamp := js "1700000000" |})))
  = Throw CipherError.
Proof.
  destruct (decryptResponse_cipher_fault (H := toy_platform) (js "QUJD")
              (sample_world sample_pem
                 (Some {| EncryptionMetadata.counter := replicate 16 x01;
                          EncryptionMetadata.aesKey := [0xE9];
                          EncryptionMetadata.timestamp := js "1700000000" |}))
              _ eq_refl) as [Hrun _].
  - left. intros Ha. apply Forall_inv in Ha. vm_compute in Ha. discriminate.
  - now rewrite Hrun.
Defined.

(** ** The timestamp at any time *)

Section Timestamp.
Import PayloadEncryption.

(** Every number has a number of digits. *)
Lemma digit_count m : forall n,
  (N.to_nat n <= m)%nat ->
  exists k, n < 10 ^ N.of_nat (S k) /\ (k = O \/ 10 ^ N.of_nat k <= n).
Proof.
  induction m as [|m IH]; intros n Hn.
  - exists O. split; [change (10 ^ N.of_nat 1) with 10; lia|now left].
  - destruct (N.ltb_spec n 10) as [Hlt|Hge].
    + exists O. split; [exact Hlt|now left].
    + destruct (IH (n / 10)) as (k & Hhi & Hlo).
      { assert (n / 10 < n) by (apply N.div_lt; lia). lia. }
      assert (E : forall j, 10 ^ N.of_nat (S j) = 10 * 10 ^ N.of_nat j).
      { intros j. rewrite Nat2N.inj_succ. apply N.pow_succ_r'. }
      exists (S k). split.
      * rewrite E. remember (10 ^ N.of_nat (S k)) as X. clear - Hhi. euclid.
      * right. rewrite E. destruct Hlo as [->|Hlo].
        -- change (10 ^ N.of_nat 0) with 1. lia.
        -- remember (10 ^ N.of_nat k) as X. clear - Hlo. euclid.
Qed.

(** X20. Whenever the clock is not before 1970, the timestamp is the
    decimal numeral of the whole seconds of the clock (digits only, and
    reading them back gives the seconds), and it has 10 digits exactly
    from 10^9 to 10^10 - 1 seconds. *)
Theorem generateTimestamp_decimal w :
  (0 <= Date_now w)%Z ->
  exists ts,
    generateTimestamp w = (Ok ts, w) /\
    Forall is_digit_char ts /\
    Z.of_N (decimal_value ts) = (Date_now w / 1000)%Z /\
    (length ts = 10%nat <-> (10 ^ 9 <= Date_now w / 1000 < 10 ^ 10)%Z).
Proof.
  intros Hnow.
  assert (Hsec : (0 <= Date_now w / 1000)%Z) by (apply Z.div_pos; lia).
  exists (decimal (Z.to_N (Date_now w / 1000))).
  split.
  { unfold generateTimestamp, Number_toString.
    destruct (Z.ltb_spec (Date_now w / 1000) 0); [lia|reflexivity]. }
  set (n := Z.to_N (Date_now w / 1000)).
  destruct (digit_count (N.to_nat n) n (Nat.le_refl _)) as (k & Hhi & Hlo).
  destruct (decimal_spec k n Hhi Hlo) as (Hlen & Hdig & Hval).
  split; [exact Hdig|]. split; [rewrite Hval; unfold n; lia|].
  rewrite Hlen.
  assert (Hn : (10 ^ 9 <= Date_now w / 1000 < 10 ^ 10)%Z
               <-> 10 ^ N.of_nat 9 <= n < 10 ^ N.of_nat 10).
  { change (10 ^ N.of_nat 9) with (Z.to_N (10 ^ 9)).
    change (10 ^ N.of_nat 10) with (Z.to_N (10 ^ 10)). unfold n. lia. }
  rewrite Hn. split.
  - intros [= ->]. destruct Hlo as [|Hlo]; [discriminate|]. split; assumption.
  - intros [H9 H10].
    destruct (Nat.lt_trichotomy k 9) as [Hk|[->|Hk]]; [|reflexivity|].
    + assert (10 ^ N.of_nat (S k) <= 10 ^ N.of_nat 9)
        by (apply N.pow_le_mono_r; lia).
      lia.
    + destruct Hlo as [->|Hlo]; [lia|].
      assert (10 ^ N.of_nat 10 <= 10 ^ N.of_nat k)
        by (apply N.pow_le_mono_r; lia).
      lia.
Qed.

End Timestamp.

Lemma generateTimestamp_decimal_witness :
  exists ts,
    PayloadEncryption.generateTimestamp (sample_world sample_pem None)
    = (Ok ts, sample_world sample_pem None) /\
    Forall is_digit_char ts.
Proof.
  destruct (generateTimestamp_decimal (sample_world sample_pem None))
    as (ts & Hrun & Hdig & _).
  - now vm_compute.
  - exists ts. auto.
Defined.

(** * CacheService: the cache of fetched listings

    A shallow embedding of [src/services/cacheService.ts]. A listing is any
    JSON value ([any] in the source); the [Map] is the list of its entries
    in insertion order; the clock is the sequence of the values
    [Date.now()] will read. A thrown [TypeError] keeps the state as it was
    at the throw. *)

Module CacheService.

(** A value read from a property: [undefined] or a JSON value. *)
Inductive jsval :=
| Undefined
| Value (v : json).

(** [listing[key]]: a [TypeError] ([None]) on [null]; [undefined] on what
    has no such property. *)
Definition member (listing : json) (key : jsstring) : option jsval :=
  match listing with
  | JNull => None
  | JObject o =>
      Some match get_prop o key with
           | Some v => Value v
           | None => Undefined
           end
  | _ => Some Undefined
  end.

(** What [if (x)] takes as true. *)
Definition truthy (x : jsval) : bool :=
  match x with
  | Undefined => false
  | Value JNull => false
  | Value (JBool b) => b
  | Value (JNumber z) => negb (z =? 0)%Z
  | Value (JString s) => negb (bool_decide (s = []))
  | Value (JArray _) | Value (JObject _) => true
  end.

(** Key equality of a [Map]. Strings, numbers and booleans are the same
    key when they are equal; an array or an object is the same key only as
    the same object, which values do not record: such keys are taken as
    distinct. *)
Definition same_key (a b : json) : bool :=
  match a, b with
  | JNull, JNull => true
  | JBool x, JBool y => Bool.eqb x y
  | JNumber x, JNumber y => (x =? y)%Z
  | JString s, JString t => bool_decide (s = t)
  | _, _ => false
  end.

Record CachedListing := {
  id_listing : json;
  data : json;
  cachedAt : Z;
}.

Definition Map := list (json * CachedListing).

Fixpoint Map_get (m : Map) (k : json) : option CachedListing :=
  match m with
  | [] => None
  | (k', v) :: rest => if same_key k' k then Some v else Map_get rest k
  end.

Definition Map_has (m : Map) (k : json) : bool :=
  match Map_get m k with
  | Some _ => true
  | None => false
  end.

(** [map.set(k, v)]: an existing key keeps its place. *)
Fixpoint Map_set (m : Map) (k : json) (v : CachedListing) : Map :=
  match m with
  | [] => [(k, v)]
  | (k', v') :: rest =>
      if same_key k' k then (k', v) :: rest else (k', v') :: Map_set rest k v
  end.

Record State := {
  cache : Map;
  (** the values [Date.now()] reads, and how many have been read *)
  clock : nat -> Z;
  clock_reads : nat;
}.

(** A computation: its value, or [None] for a thrown [TypeError], and the
    state it leaves. *)
Definition Run (A : Type) : Type := State -> option A * State.

Definition has (listingId : json) (st : State) : bool :=
  Map_has (cache st) listingId.

Definition get (listingId : jsstring) (st : State) : jsval :=
  match Map_get (cache st) (JString listingId) with
  | Some cached => Value (data cached)
  | None => Undefined
  end.

Definition add (listing : json) : Run unit := fun st =>
  match member listing (js "id_listing") with
  | None => (None, st)
  | Some id =>
      if truthy id then
        match id with
        | Value key =>
            (Some tt,
             {| cache :=
                  Map_set (cache st) key
                    {| id_listing := key; data := listing;
                       cachedAt := clock st (clock_reads st) |};
                clock := clock st;
                clock_reads := S (clock_reads st) |})
        | Undefined => (Some tt, st)
        end
      else (Some tt, st)
  end.

(** [listings.forEach(listing => this.add(listing))]. *)
Fixpoint addListings (listings : list json) : Run unit := fun st =>
  match listings with
  | [] => (Some tt, st)
  | listing :: rest =>
      match add listing st with
      | (Some _, st') => addListings rest st'
      | (None, st') => (None, st')
      end
  end.

Definition filterNewListingIds (listingIds : list jsstring) (st : State)
  : list jsstring :=
  List.filter (fun id => negb (has (JString id) st)) listingIds.

(** [listings.filter(listing => ...)]: [None] when the callback throws. *)
Fixpoint getNewListings (listings : list json) (st : State)
  : option (list json) :=
  match listings with
  | [] => Some []
  | listing :: rest =>
      match member listing (js "id_listing") with
      | None => None
      | Some id =>
          let keep :=
            if negb (truthy id) then true
            else match id with
                 | Value key => negb (has key st)
                 | Undefined => true
                 end in
          match getNewListings rest st with
          | Some kept => Some (if keep then listing :: kept else kept)
          | None => None
          end
      end
  end.

Definition getCacheSize (st : State) : nat := length (cache st).

Definition clear (st : State) : State :=
  {| cache := []; clock := clock st; clock_reads := clock_reads st |}.

Module CacheStats.
Record t := { size : nat; listings : list json }.
End CacheStats.

Definition getCacheStats (st : State) : CacheStats.t :=
  {| CacheStats.size := length (cache st);
     CacheStats.listings := map fst (cache st) |}.

(** [new CacheService()]. *)
Definition new (clock : nat -> Z) : State :=
  {| cache := []; clock := clock; clock_reads := 0 |}.

End CacheService.

(** ** Properties of the cache *)

Section CacheFacts.
Import CacheService.

Definition id_key : jsstring := js "id_listing".

Lemma same_key_eq a b : same_key a b = true -> a = b.
Proof.
  destruct a, b; cbn; try discriminate; intros E.
  - reflexivity.
  - apply Bool.eqb_prop in E. now subst.
  - apply Z.eqb_eq in E. now subst.
  - apply bool_decide_eq_true_1 in E. now subst.
Qed.

Lemma same_key_string s : same_key (JString s) (JString s) = true.
Proof. cbn. now apply bool_decide_eq_true_2. Qed.

Lemma same_key_string_ne s t : s <> t -> same_key (JString s) (JString t) = false.
Proof. intros Hne. cbn. now apply bool_decide_eq_false_2. Qed.

(** Writing under a key that is its own key reads back. *)
Lemma Map_get_set_same m k v :
  same_key k k = true -> Map_get (Map_set m k v) k = Some v.
Proof.
  intros Hk. induction m as [|[k' v'] m IH]; cbn [Map_set Map_get].
  - now rewrite Hk.
  - destruct (same_key k' k) eqn:E; cbn [Map_get]; now rewrite E.
Qed.

(** Writing under one key leaves the other keys as they were. *)
Lemma Map_get_set_other m k v k2 :
  same_key k k2 = false -> Map_get (Map_set m k v) k2 = Map_get m k2.
Proof.
  intros Hne. induction m as [|[k' v'] m IH]; cbn [Map_set Map_get].
  - now rewrite Hne.
  - destruct (same_key k' k) eqn:E; cbn [Map_get].
    + apply same_key_eq in E. subst k'. now rewrite Hne.
    + now rewrite IH.
Qed.

(** Writing never drops or renames a key. *)
Lemma Map_has_set_mono m k v k2 :
  Map_has m k2 = true -> Map_has (Map_set m k v) k2 = true.
Proof.
  unfold Map_has.
  induction m as [|[k' v'] m IH]; cbn [Map_set Map_get]; [discriminate|].
  destruct (same_key k' k) eqn:E; cbn [Map_get];
    destruct (same_key k' k2); auto.
Qed.

Lemma Map_set_keys m k v :
  map fst (Map_set m k v)
  = if Map_has m k then map fst m else map fst m ++ [k].
Proof.
  unfold Map_has.
  induction m as [|[k' v'] m IH]; cbn [Map_set Map_get map fst app];
    [reflexivity|].
  destruct (same_key k' k) eqn:E; cbn [map fst]; [reflexivity|].
  rewrite IH. now destruct (Map_get m k).
Qed.

Lemma Map_set_length m k v :
  length (Map_set m k v) = if Map_has m k then length m else S (length m).
Proof.
  rewrite <- !(length_map fst), Map_set_keys.
  destruct (Map_has m k); [reflexivity|].
  rewrite length_app. cbn. lia.
Qed.

(** What [add] does for a listing with a usable id: one clock reading,
    one write. *)
Lemma add_with_id listing key st :
  member listing id_key = Some (Value key) ->
  truthy (Value key) = true ->
  add listing st
  = (Some tt,
     {| cache :=
          Map_set (cache st) key
            {| id_listing := key; data := listing;
               cachedAt := clock st (clock_reads st) |};
        clock := clock st;
        clock_reads := S (clock_reads st) |}).
Proof.
  intros Hid Ht. unfold add. fold id_key. now rewrite Hid, Ht.
Qed.

Lemma add_cases listing st :
  (listing = JNull /\ add listing st = (None, st)) \/
  (exists id, member listing id_key = Some id /\ truthy id = false /\
              add listing st = (Some tt, st)) \/
  (exists key, member listing id_key = Some (Value key) /\
               truthy (Value key) = true /\
               add listing st
               = (Some tt,
                  {| cache :=
                       Map_set (cache st) key
                         {| id_listing := key; data := listing;
                            cachedAt := clock st (clock_reads st) |};
                     clock := clock st;
                     clock_reads := S (clock_reads st) |})).
Proof.
  destruct (member listing id_key) as [id|] eqn:Hid.
  - destruct (truthy id) eqn:Ht.
    + destruct id as [|key]; [discriminate|].
      right. right. exists key. split; [reflexivity|]. split; [exact Ht|].
      now apply add_with_id.
    + right. left. exists id. split; [reflexivity|]. split; [exact Ht|].
      unfold add. fold id_key. now rewrite Hid, Ht.
  - left. destruct listing; try discriminate. split; [reflexivity|].
    reflexivity.
Qed.

Lemma add_string_id listing s st :
  member listing id_key = Some (Value (JString s)) -> s <> [] ->
  fst (add listing st) = Some tt /\
  has (JString s) (snd (add listing st)) = true.
Proof.
  intros Hid Hs.
  rewrite (add_with_id listing (JString s) st Hid)
    by (cbn; now rewrite bool_decide_eq_false_2).
  split; [reflexivity|].
  unfold has, Map_has. cbn [snd cache].
  now rewrite Map_get_set_same by apply same_key_string.
Qed.

Lemma addListings_throws_iff listings : forall st,
  fst (addListings listings st) = None <-> In JNull listings.
Proof.
  induction listings as [|listing rest IH]; intros st; cbn [addListings In].
  - split; [discriminate|tauto].
  - destruct (add_cases listing st)
      as [[-> ->]|[(id & Hid & _ & ->)|(key & Hid & _ & ->)]].
    + split; auto.
    + rewrite IH. split; [tauto|].
      intros [->|Hin]; [discriminate|exact Hin].
    + rewrite IH. split; [tauto|].
      intros [->|Hin]; [discriminate|exact Hin].
Qed.

Lemma add_has_mono listing st k :
  has k st = true -> has k (snd (add listing st)) = true.
Proof.
  intros Hk.
  destruct (add_cases listing st)
    as [[_ ->]|[(id & _ & _ & ->)|(key & _ & _ & ->)]]; try exact Hk.
  unfold has. cbn [snd cache]. now apply Map_has_set_mono.
Qed.

Lemma addListings_has_mono listings : forall st k,
  has k st = true -> has k (snd (addListings listings st)) = true.
Proof.
  induction listings as [|listing rest IH]; intros st k Hk; [exact Hk|].
  cbn [addListings]. pose proof (add_has_mono listing st k Hk) as Hadd.
  destruct (add listing st) as [[[]|] st1]; cbn [snd] in *; auto.
Qed.

Lemma add_size_mono listing st :
  (getCacheSize st <= getCacheSize (snd (add listing st)))%nat.
Proof.
  destruct (add_cases listing st)
    as [[_ ->]|[(id & _ & _ & ->)|(key & _ & _ & ->)]]; try (cbn; lia).
  unfold getCacheSize. cbn [snd cache]. rewrite Map_set_length.
  destruct (Map_has _ _); lia.
Qed.

End CacheFacts.

Section CacheProperties.
Import CacheService.

(** X21. Adding a listing whose [id_listing] is a non-empty string caches
    it under that id: [has] is then true, [get] gives back the listing
    itself (the latest one added under the id), the id is no longer new,
    the clock has been read once, and the cache has grown by one entry
    unless the id was cached already. *)
Theorem add_then_lookup listing s st :
  member listing id_key = Some (Value (JString s)) ->
  s <> [] ->
  exists st',
    add listing st = (Some tt, st') /\
    has (JString s) st' = true /\
    get s st' = Value listing /\
    filterNewListingIds [s] st' = [] /\
    clock_reads st' = S (clock_reads st) /\
    getCacheSize st'
    = (if has (JString s) st then getCacheSize st else S (getCacheSize st)).
Proof.
  intros Hid Hs.
  assert (Ht : truthy (Value (JString s)) = true).
  { cbn. now rewrite bool_decide_eq_false_2. }
  eexists. split; [apply (add_with_id _ _ _ Hid Ht)|].
  assert (Hget : Map_get
                   (Map_set (cache st) (JString s)
                      {| id_listing := JString s; data := listing;
                         cachedAt := clock st (clock_reads st) |})
                   (JString s)
                 = Some {| id_listing := JString s; data := listing;
                           cachedAt := clock st (clock_reads st) |}).
  { apply Map_get_set_same, same_key_string. }
  unfold has, get, filterNewListingIds, has, Map_has, getCacheSize.
  cbn [cache clock_reads List.filter]. rewrite Hget.
  repeat split. cbn [data negb]. apply Map_set_length.
Qed.

(** X22. A listing with no usable id (no [id_listing], or one that is
    [null], [false], [0] or the empty string) is not cached: [add] leaves
    the cache and the clock as they were. *)
Theorem add_without_id listing id st :
  member listing id_key = Some id ->
  truthy id = false ->
  add listing st = (Some tt, st).
Proof.
  intros Hid Ht. unfold add. fold id_key. now rewrite Hid, Ht.
Qed.

(** X23. [addListings] throws exactly when one of the listings is
    [null]; the listings before the first [null] are cached by then, the
    ones after it are not looked at. *)
Theorem addListings_null before after st :
  ~ In JNull before ->
  fst (addListings before st) = Some tt /\
  addListings (before ++ JNull :: after) st
  = (None, snd (addListings before st)) /\
  (forall listings st0,
     fst (addListings listings st0) = None <-> In JNull listings).
Proof.
  intros Hnot. split; [|split; [|intros; apply addListings_throws_iff]].
  - destruct (fst (addListings before st)) as [[]|] eqn:E; [reflexivity|].
    apply addListings_throws_iff in E. contradiction.
  - revert st. induction before as [|listing rest IH]; intros st; [reflexivity|].
    cbn [addListings app].
    destruct (add_cases listing st)
      as [[-> _]|[(id & _ & _ & ->)|(key & _ & _ & ->)]].
    + exfalso. apply Hnot. now left.
    + apply IH. intros Hin. apply Hnot. now right.
    + apply IH. intros Hin. apply Hnot. now right.
Qed.

(** X24. [add] touches one key only: for every id that is not the
    listing's own, [has] and [get] answer after the call what they
    answered before. *)
Theorem add_other_ids listing k st :
  member listing id_key <> Some (Value (JString k)) ->
  has (JString k) (snd (add listing st)) = has (JString k) st /\
  get k (snd (add listing st)) = get k st.
Proof.
  intros Hne.
  destruct (add_cases listing st)
    as [[_ ->]|[(id & _ & _ & ->)|(key & Hid & _ & ->)]];
    try (split; reflexivity).
  assert (Hk : same_key key (JString k) = false).
  { destruct (same_key key (JString k)) eqn:E; [|reflexivity].
    apply same_key_eq in E. subst key. contradiction. }
  unfold has, get, Map_has. cbn [snd cache].
  now rewrite Map_get_set_other.
Qed.

(** X25. Until [clear], the cache only grows: whatever is added, an id
    that was cached stays cached and the size does not go down, also when
    [addListings] stops on a [null]. *)
Theorem addListings_keeps_cached listings st :
  (forall k, has k st = true -> has k (snd (addListings listings st)) = true) /\
  (getCacheSize st <= getCacheSize (snd (addListings listings st)))%nat.
Proof.
  split; [intros k; apply addListings_has_mono|].
  revert st. induction listings as [|listing rest IH]; intros st; [cbn; lia|].
  cbn [addListings]. pose proof (add_size_mono listing st) as Hadd.
  destruct (add listing st) as [[[]|] st1]; cbn [snd] in *; [|exact Hadd].
  etransitivity; [exact Hadd|apply IH].
Qed.

(** X26. After [addListings] has returned, every listing of the batch
    with a non-empty string id is cached, so none of those ids is new any
    more. *)
Theorem addListings_then_filter listings st st' :
  addListings listings st = (Some tt, st') ->
  (forall listing s,
     In listing listings ->
     member listing id_key = Some (Value (JString s)) -> s <> [] ->
     has (JString s) st' = true) /\
  (forall ids,
     Forall (fun s => s <> [] /\
                      exists listing,
                        In listing listings /\
                        member listing id_key = Some (Value (JString s))) ids ->
     filterNewListingIds ids st' = []).
Proof.
  intros Hrun.
  assert (Hall : forall listing s,
             In listing listings ->
             member listing id_key = Some (Value (JString s)) -> s <> [] ->
             has (JString s) st' = true).
  { revert st Hrun. induction listings as [|l rest IH]; intros st Hrun listing s Hin Hid Hs;
      [destruct Hin|].
    cbn [addListings] in Hrun.
    destruct (add l st) as [[[]|] st1] eqn:Hadd; [|discriminate].
    destruct Hin as [->|Hin]; [|eapply IH; eassumption].
    destruct (add_string_id listing s st Hid Hs) as [_ Hhas].
    rewrite Hadd in Hhas. cbn [snd] in Hhas.
    replace st' with (snd (addListings rest st1)) by now rewrite Hrun.
    now apply addListings_has_mono. }
  split; [exact Hall|].
  intros ids Hids. unfold filterNewListingIds.
  induction Hids as [|s ids (Hs & listing & Hin & Hid) _ IH]; [reflexivity|].
  cbn [List.filter]. now rewrite (Hall listing s Hin Hid Hs).
Qed.

End CacheProperties.

Section CacheFilters.
Import CacheService.

(** Whether [getNewListings] keeps a listing that is not [null]. *)
Definition is_new (st : State) (listing : json) : bool :=
  match member listing id_key with
  | Some (Value key) => if truthy (Value key) then negb (has key st) else true
  | _ => true
  end.

Lemma getNewListings_filter listings st :
  ~ In JNull listings ->
  getNewListings listings st = Some (List.filter (is_new st) listings).
Proof.
  induction listings as [|listing rest IH]; intros Hnot; [reflexivity|].
  cbn [getNewListings List.filter]. fold id_key.
  rewrite IH by (intros Hin; apply Hnot; now right).
  unfold is_new.
  destruct (member listing id_key) as [[|key]|] eqn:Hid.
  - reflexivity.
  - now destruct (truthy (Value key)).
  - destruct listing; try discriminate. exfalso. apply Hnot. now left.
Qed.

Lemma getNewListings_throws_iff listings st :
  getNewListings listings st = None <-> In JNull listings.
Proof.
  induction listings as [|listing rest IH]; cbn [getNewListings In].
  - split; [discriminate|tauto].
  - fold id_key. destruct (member listing id_key) as [id|] eqn:Hid.
    + destruct (getNewListings rest st) as [kept|].
      * split; [discriminate|]. intros [->|Hin]; [discriminate|].
        now apply IH in Hin.
      * split; [intros _; right; now apply IH|reflexivity].
    + destruct listing; try discriminate. split; auto.
Qed.

(** A listing as the declared types have it: an object or other value
    whose [id_listing], when it counts as true, is a string. *)
Definition string_or_no_id (listing : json) : Prop :=
  exists id, member listing id_key = Some id /\
             (truthy id = false \/ exists s, id = Value (JString s)).

(** Whether a listing has an id that [add] would cache it under. *)
Definition has_id (listing : json) : bool :=
  match member listing id_key with
  | Some id => truthy id
  | None => false
  end.

(** X27. [getNewListings] throws exactly when a listing is [null].
    Asked about the batch [addListings] has just cached (ids that are
    strings), it gives back the listings without a usable id and nothing
    else: those are never cached and always count as new. *)
Theorem getNewListings_after_addListings listings st st' :
  addListings listings st = (Some tt, st') ->
  Forall string_or_no_id listings ->
  getNewListings listings st'
  = Some (List.filter (fun listing => negb (has_id listing)) listings) /\
  (forall batch st0, getNewListings batch st0 = None <-> In JNull batch).
Proof.
  intros Hrun Hids. split; [|intros; apply getNewListings_throws_iff].
  assert (Hnot : ~ In JNull listings).
  { intros Hin. apply (addListings_throws_iff listings st) in Hin.
    rewrite Hrun in Hin. discriminate. }
  rewrite getNewListings_filter by exact Hnot. f_equal.
  apply filter_ext_in_iff. intros listing Hin.
  rewrite List.Forall_forall in Hids.
  destruct (Hids listing Hin) as (id & Hid & Hcase).
  unfold is_new, has_id. rewrite Hid.
  destruct Hcase as [Hf|[s ->]].
  - rewrite Hf. destruct id as [|key]; [reflexivity|]. now rewrite Hf.
  - destruct (truthy (Value (JString s))) eqn:Ht; [|reflexivity].
    assert (Hs : s <> []).
    { intros ->. vm_compute in Ht. discriminate. }
    assert (Hhas : has (JString s) st' = true).
    { clear Hids Hnot. revert st Hrun.
      induction listings as [|l rest IH]; intros st Hrun; [destruct Hin|].
      cbn [addListings] in Hrun.
      destruct (add l st) as [[[]|] st1] eqn:Hadd; [|discriminate].
      destruct Hin as [->|Hin]; [|eapply IH; eassumption].
      destruct (add_string_id listing s st Hid Hs) as [_ Hh].
      rewrite Hadd in Hh. cbn [snd] in Hh.
      replace st' with (snd (addListings rest st1)) by now rewrite Hrun.
      now apply addListings_has_mono. }
    now rewrite Hhas.
Qed.

(** X28. After [clear] nothing is cached: the size is 0, [has] is false
    and [get] is [undefined] for every id, every id and every listing
    counts as new again; the clock is not read. *)
Theorem clear_forgets st :
  getCacheSize (clear st) = 0%nat /\
  (forall k, has k (clear st) = false) /\
  (forall s, get s (clear st) = Undefined) /\
  (forall ids, filterNewListingIds ids (clear st) = ids) /\
  (forall listings,
     ~ In JNull listings -> getNewListings listings (clear st) = Some listings) /\
  clock_reads (clear st) = clock_reads st.
Proof.
  split; [reflexivity|]. split; [reflexivity|]. split; [reflexivity|].
  split; [|split; [|reflexivity]].
  - intros ids. unfold filterNewListingIds.
    induction ids as [|id ids IH]; [reflexivity|].
    cbn [List.filter].
    change (negb (has (JString id) (clear st))) with true.
    cbn beta iota. now rewrite IH.
  - intros listings Hnot. rewrite getNewListings_filter by exact Hnot. f_equal.
    induction listings as [|listing rest IH]; [reflexivity|].
    cbn [List.filter].
    assert (Hnew : is_new (clear st) listing = true).
    { unfold is_new. destruct (member listing id_key) as [[|key]|];
        try reflexivity. now destruct (truthy (Value key)). }
    rewrite Hnew, IH; [reflexivity|]. intros Hin. apply Hnot. now right.
Qed.

(** X29. Adding a listing with a non-empty string id takes exactly that
    id out of what [filterNewListingIds] reports: the other ids are
    reported as before, in the same order. *)
Theorem filterNewListingIds_after_add listing s st ids :
  member listing id_key = Some (Value (JString s)) ->
  s <> [] ->
  filterNewListingIds ids (snd (add listing st))
  = List.filter (fun id => negb (bool_decide (id = s)))
      (filterNewListingIds ids st).
Proof.
  intros Hid Hs.
  destruct (add_string_id listing s st Hid Hs) as [_ Hhas].
  unfold filterNewListingIds.
  induction ids as [|id ids IH]; [reflexivity|].
  cbn [List.filter].
  destruct (decide (id = s)) as [->|Hne].
  - rewrite Hhas. cbn [negb]. rewrite IH.
    destruct (negb (has (JString s) st)); [|reflexivity].
    cbn [List.filter]. now rewrite bool_decide_eq_true_2.
  - assert (E : has (JString id) (snd (add listing st)) = has (JString id) st).
    { rewrite (add_with_id listing (JString s) st Hid)
        by (cbn; now rewrite bool_decide_eq_false_2).
      unfold has, Map_has. cbn [snd cache].
      rewrite Map_get_set_other; [reflexivity|].
      apply same_key_string_ne. congruence. }
    rewrite E, IH.
    destruct (negb (has (JString id) st)); [|reflexivity].
    cbn [List.filter]. now rewrite bool_decide_eq_false_2.
Qed.

(** X30. The statistics list the cached ids in the order they were first
    added: adding a listing with a non-empty string id puts the id last
    when it is new and leaves the list as it is otherwise, and the
    reported size is always the number of ids listed. *)
Theorem getCacheStats_after_add listing s st :
  member listing id_key = Some (Value (JString s)) ->
  s <> [] ->
  CacheStats.listings (getCacheStats (snd (add listing st)))
  = (if has (JString s) st
     then CacheStats.listings (getCacheStats st)
     else CacheStats.listings (getCacheStats st) ++ [JString s]) /\
  (forall st0,
     CacheStats.size (getCacheStats st0)
     = length (CacheStats.listings (getCacheStats st0)) /\
     CacheStats.size (getCacheStats st0) = getCacheSize st0).
Proof.
  intros Hid Hs. split.
  - rewrite (add_with_id listing (JString s) st Hid)
      by (cbn; now rewrite bool_decide_eq_false_2).
    cbn [snd getCacheStats CacheStats.listings cache]. apply Map_set_keys.
  - intros st0. cbn [getCacheStats CacheStats.size CacheStats.listings].
    now rewrite length_map.
Qed.

End CacheFilters.

(** ** The cache at work on sample listings *)

Section CacheSamples.
Import CacheService.

Definition sample_listing (id : string) : json :=
  JObject [(js "id_listing", JString (js id)); (js "price", JNumber 2500)].

Definition anonymous_listing : json := JObject [(js "price", JNumber 1800)].

Definition sample_cache : State := new (fun i => Z.of_nat i + 1700000000000)%Z.

Lemma add_then_lookup_witness :
  exists st',
    add (sample_listing "L1") sample_cache = (Some tt, st') /\
    has (JString (js "L1")) st' = true /\
    get (js "L1") st' = Value (sample_listing "L1") /\
    getCacheSize st' = 1%nat.
Proof.
  destruct (add_then_lookup (sample_listing "L1") (js "L1") sample_cache)
    as (st' & Hadd & Hhas & Hget & _ & _ & Hsize).
  - reflexivity.
  - discriminate.
  - exists st'. repeat split; assumption.
Defined.

Lemma add_without_id_witness :
  add anonymous_listing sample_cache = (Some tt, sample_cache).
Proof.
  apply (add_without_id anonymous_listing Undefined); reflexivity.
Defined.

Lemma addListings_null_witness :
  addListings [sample_listing "L1"; JNull; sample_listing "L2"] sample_cache
  = (None, snd (addListings [sample_listing "L1"] sample_cache)).
Proof.
  apply (addListings_null [sample_listing "L1"] [sample_listing "L2"]).
  intros [E|[]]. discriminate.
Defined.

Lemma add_other_ids_witness :
  has (JString (js "L2")) (snd (add (sample_listing "L1") sample_cache))
  = has (JString (js "L2")) sample_cache.
Proof.
  apply (add_other_ids (sample_listing "L1") (js "L2") sample_cache).
  discriminate.
Defined.

Lemma addListings_then_filter_witness :
  exists st',
    addListings [sample_listing "L1"; anonymous_listing; sample_listing "L2"]
      sample_cache = (Some tt, st') /\
    filterNewListingIds [js "L2"; js "L1"] st' = [].
Proof.
  destruct (addListings
              [sample_listing "L1"; anonymous_listing; sample_listing "L2"]
              sample_cache) as [[[]|] st'] eqn:Hrun.
  - exists st'. split; [reflexivity|].
    apply (proj2 (addListings_then_filter _ _ _ Hrun)).
    repeat constructor; try discriminate.
    + exists (sample_listing "L2"). split; [cbn; tauto|reflexivity].
    + exists (sample_listing "L1"). split; [cbn; tauto|reflexivity].
  - vm_compute in Hrun. discriminate.
Defined.

Lemma getNewListings_after_addListings_witness :
  exists st',
    addListings [sample_listing "L1"; anonymous_listing] sample_cache
    = (Some tt, st') /\
    getNewListings [sample_listing "L1"; anonymous_listing] st'
    = Some [anonymous_listing].
Proof.
  destruct (addListings [sample_listing "L1"; anonymous_listing] sample_cache)
    as [[[]|] st'] eqn:Hrun.
  - exists st'. split; [reflexivity|].
    destruct (getNewListings_after_addListings _ _ _ Hrun) as [E _];
      [|exact E].
    repeat constructor.
    + exists (Value (JString (js "L1"))). split; [reflexivity|]. right. eauto.
    + exists Undefined. split; [reflexivity|]. now left.
  - vm_compute in Hrun. discriminate.
Defined.

Lemma filterNewListingIds_after_add_witness :
  filterNewListingIds [js "L1"; js "L2"]
    (snd (add (sample_listing "L1") sample_cache))
  = [js "L2"].
Proof.
  rewrite (filterNewListingIds_after_add (sample_listing "L1") (js "L1"));
    [reflexivity|reflexivity|discriminate].
Defined.

Lemma getCacheStats_after_add_witness :
  CacheStats.listings
    (getCacheStats (snd (add (sample_listing "L1") sample_cache)))
  = [JString (js "L1")].
Proof.
  rewrite (proj1 (getCacheStats_after_add (sample_listing "L1") (js "L1")
                    sample_cache eq_refl ltac:(discriminate))).
  reflexivity.
Defined.

End CacheSamples.
